(** * TransformersSimilarityRanker: a shallow embedding and its properties

    Source: haystack/components/rankers/transformers_similarity.py

    The component reranks candidate documents against a query with a
    cross-encoder.  Tokenisation, inference, [torch.sigmoid] and [torch.sort]
    belong to the external model runtime; they appear here as the operations
    of a type class, so that every statement below holds for any runtime.
    Python objects live in a store indexed by object identity, because [run]
    writes the [score] attribute of the documents it was handed. *)

From stdpp Require Import base option list strings pretty gmap sorting.
From Stdlib Require Import ZArith.

Local Open Scope Z_scope.

(** ** Python values and exceptions *)

(** The values a document's [meta] dictionary holds (the JSON-like scalars;
    what [run] needs of them is their truth value and their [str]). *)
Inductive py_value :=
  | PyNone
  | PyBool (b : bool)
  | PyInt (n : Z)
  | PyStr (s : string).

(** Python truthiness, as tested by [if x] and by [x and y], [x or y]. *)
Definition truthy (v : py_value) : bool :=
  match v with
  | PyNone => false
  | PyBool b => b
  | PyInt n => negb (n =? 0)
  | PyStr s => negb (bool_decide (s = ""))
  end.

(** Python's [str(v)]. *)
Definition py_str (v : py_value) : string :=
  match v with
  | PyNone => "None"
  | PyBool true => "True"
  | PyBool false => "False"
  | PyInt n => pretty n
  | PyStr s => s
  end.

(** [x is None] *)
Definition is_none {A : Type} (x : option A) : bool :=
  match x with
  | None => true
  | Some _ => false
  end.

(** The [ValueError] messages of the component. *)
Inductive value_error :=
  | top_k_must_be_positive (got : Z)
  | calibration_factor_must_be_provided
  | single_device_only.

Inductive exn :=
  | ValueError (msg : value_error)
  | ComponentError
  | TypeError
  | IndexError.

(** The outcome of a call: a value, or a raised exception. *)
Inductive result (A : Type) :=
  | Ok (a : A)
  | Raise (e : exn).
Arguments Ok {A} a.
Arguments Raise {A} e.

Global Instance result_ret : MRet result := λ A a, Ok a.
Global Instance result_bind : MBind result := λ A B f m,
  match m with
  | Ok a => f a
  | Raise e => Raise e
  end.

(** A [for] loop over [l] that threads an accumulator and stops at the
    first exception. *)
Fixpoint for_each {A S : Type} (body : S → A → result S) (l : list A) (s : S)
  : result S :=
  match l with
  | [] => Ok s
  | x :: l' => s' ← body s x; for_each body l' s'
  end.

(** A list comprehension [[x for x in l if c x]] whose condition may raise. *)
Fixpoint comprehension_if {A : Type} (c : A → result bool) (l : list A)
  : result (list A) :=
  match l with
  | [] => Ok []
  | x :: l' =>
      b ← c x;
      rest ← comprehension_if c l';
      Ok (if b : bool then x :: rest else rest)
  end.

(** [l[i]] on a Python list, for a non-negative index. *)
Definition getitem {A : Type} (l : list A) (i : nat) : result A :=
  match l !! i with
  | Some x => Ok x
  | None => Raise IndexError
  end.

(** ** The external runtime *)

(** What the component uses of Python floats and of torch, over the type
    [F] of float values. *)
Class Runtime (F : Type) := {
  (** [x * c] of a tensor element by a Python float *)
  float_mul : F → F → F;
  (** [x >= y] on Python floats *)
  float_ge : F → F → bool;
  (** falsiness of a Python float ([x == 0.0]) *)
  float_is_zero : F → bool;
  (** [torch.sigmoid], element-wise *)
  torch_sigmoid : F → F;
  (** the indices returned by [torch.sort(scores, descending=True)];
      [stable] is left at its default *)
  torch_sort_descending : list F → list nat;
}.

(** A warmed-up tokenizer and model: the logit of one query/document pair.
    A batch is scored pair by pair (padding is masked out). *)
Record CrossEncoder (F : Type) := {
  pair_logit : string → string → F;
}.
Arguments pair_logit {F} _ _ _.

(** ** Documents and the object store *)

(** Modelled from the spec: [Document] is imported from the [haystack]
    package and is not part of this file; these are the attributes the
    component reads or writes, and the identifier. *)
Record Document (F : Type) := {
  id : string;
  content : option string;
  meta : gmap string py_value;
  score : option F;
}.
Arguments id {F} _.
Arguments content {F} _.
Arguments meta {F} _.
Arguments score {F} _.

(** [doc.score = s] *)
Definition set_score {F : Type} (s : F) (doc : Document F) : Document F :=
  {| id := id doc; content := content doc; meta := meta doc; score := Some s |}.

Global Instance Document_inhabited {F : Type} : Inhabited (Document F) :=
  populate {| id := ""; content := None; meta := ∅; score := None |}.

(** Object identities, and the store mapping each live [Document] object to
    its current attributes.  A Python list of documents is a list of
    identities: the same object may occur in it more than once. *)
Abbreviation loc := positive.
Abbreviation heap F := (gmap positive (Document F)).

(** ** The component *)

(** [model: Union[str, Path]] *)
Inductive model_id :=
  | ModelStr (name : string)
  | ModelPath (path : string).

(** Truthiness of [self.model]: a [Path] is always truthy, a [str] when it
    is not empty. *)
Definition model_truthy (m : model_id) : bool :=
  match m with
  | ModelStr name => negb (bool_decide (name = ""))
  | ModelPath _ => true
  end.

(** [token: Union[bool, str, None]] *)
Inductive hf_token :=
  | TokenNone
  | TokenBool (b : bool)
  | TokenStr (secret : string).

(** Modelled from the spec: [ComponentDevice] is imported from
    [haystack.utils] and is not part of this file; this is what the
    component observes of a resolved device. *)
Record ComponentDevice := {
  device_repr : string;
  has_multiple_devices : bool;
}.

(** A value of [model_kwargs]: a [torch.dtype], or anything else by its
    [repr]. *)
Inductive kwarg_value :=
  | KwDtype (name : string)
  | KwOther (repr : string).

(** The attributes of a [TransformersSimilarityRanker] instance
    ([self.x] is [self_x]; [_model] stands for the model and its tokenizer,
    which [warm_up] sets together). *)
Record TransformersSimilarityRanker (F : Type) := {
  self_model : model_id;
  self_device : ComponentDevice;
  self_token : hf_token;
  self_top_k : Z;
  self_query_prefix : string;
  self_document_prefix : string;
  self_meta_fields_to_embed : list string;
  self_embedding_separator : string;
  self_scale_score : bool;
  self_calibration_factor : option F;
  self_score_threshold : option F;
  self_model_kwargs : gmap string kwarg_value;
  _model : option (CrossEncoder F);
}.
Arguments self_model {F} _.
Arguments self_device {F} _.
Arguments self_token {F} _.
Arguments self_top_k {F} _.
Arguments self_query_prefix {F} _.
Arguments self_document_prefix {F} _.
Arguments self_meta_fields_to_embed {F} _.
Arguments self_embedding_separator {F} _.
Arguments self_scale_score {F} _.
Arguments self_calibration_factor {F} _.
Arguments self_score_threshold {F} _.
Arguments self_model_kwargs {F} _.
Arguments _model {F} _.

(** ** Serialisation *)

(** The values of the [init_parameters] dictionary. *)
Inductive ser_value (F : Type) :=
  | SNone
  | SBool (b : bool)
  | SInt (n : Z)
  | SFloat (x : F)
  | SStr (s : string)
  | SStrList (l : list string)
  | SModel (m : model_id)
  | SDevice (d : ComponentDevice)
  | SKwargs (kw : gmap string kwarg_value).
Arguments SNone {F}.
Arguments SBool {F} b.
Arguments SInt {F} n.
Arguments SFloat {F} x.
Arguments SStr {F} s.
Arguments SStrList {F} l.
Arguments SModel {F} m.
Arguments SDevice {F} d.
Arguments SKwargs {F} kw.

(** The dictionary [{"type": ..., "init_parameters": {...}}]. *)
Record serialization_dict (F : Type) := {
  ser_type : string;
  init_parameters : gmap string (ser_value F);
}.
Arguments ser_type {F} _.
Arguments init_parameters {F} _.

(** Modelled from the spec: [default_to_dict(obj, **init_parameters)] is
    imported from the [haystack] package and is not part of this file; it is
    taken to pair the class path of [obj] with the keyword arguments. *)
Definition default_to_dict {F : Type} (class_path : string)
    (kwargs : list (string * ser_value F)) : serialization_dict F :=
  {| ser_type := class_path; init_parameters := list_to_map kwargs |}.

(** Modelled from the spec: [serialize_hf_model_kwargs] is imported from
    [haystack.utils.hf] and is not part of this file; it is taken to replace
    every [torch.dtype] among the model keyword arguments by its string. *)
Definition serialize_hf_model_kwargs (kw : gmap string kwarg_value)
  : gmap string kwarg_value :=
  (λ v, match v with KwDtype name => KwOther name | KwOther r => KwOther r end) <$> kw.

(** A token, a float or [None] as a serialised value. *)
Definition token_value {F : Type} (t : hf_token) : ser_value F :=
  match t with
  | TokenNone => SNone
  | TokenBool b => SBool b
  | TokenStr secret => SStr secret
  end.

Definition optional_float {F : Type} (x : option F) : ser_value F :=
  match x with
  | Some v => SFloat v
  | None => SNone
  end.

(** [isinstance(t, str)] *)
Definition isinstance_str (t : hf_token) : bool :=
  match t with
  | TokenStr _ => true
  | _ => false
  end.

Definition class_path : string :=
  "haystack.components.rankers.transformers_similarity.TransformersSimilarityRanker".

(** The keyword arguments [to_dict] hands to [default_to_dict]. *)
Definition to_dict_kwargs {F : Type} (self : TransformersSimilarityRanker F)
  : list (string * ser_value F) :=
  [ ("device", SDevice (self_device self));
    ("model", SModel (self_model self));
    ("token", token_value
        (if negb (isinstance_str (self_token self)) then self_token self
         else TokenNone));
    ("top_k", SInt (self_top_k self));
    ("query_prefix", SStr (self_query_prefix self));
    ("document_prefix", SStr (self_document_prefix self));
    ("meta_fields_to_embed", SStrList (self_meta_fields_to_embed self));
    ("embedding_separator", SStr (self_embedding_separator self));
    ("scale_score", SBool (self_scale_score self));
    ("calibration_factor", optional_float (self_calibration_factor self));
    ("score_threshold", optional_float (self_score_threshold self));
    ("model_kwargs", SKwargs (self_model_kwargs self)) ].

(** [to_dict]: the dictionary of [default_to_dict], with
    [serialize_hf_model_kwargs] applied in place to its
    [["init_parameters"]["model_kwargs"]]. *)
Definition to_dict {F : Type} (self : TransformersSimilarityRanker F)
  : serialization_dict F :=
  let serialization_dict := default_to_dict class_path (to_dict_kwargs self) in
  {| ser_type := ser_type serialization_dict;
     init_parameters :=
       alter (λ v, match v with
                   | SKwargs kw => SKwargs (serialize_hf_model_kwargs kw)
                   | other => other
                   end)
             "model_kwargs" (init_parameters serialization_dict) |}.

(** The component with its [token] attribute replaced. *)
Definition set_token {F : Type} (t : hf_token)
    (self : TransformersSimilarityRanker F) : TransformersSimilarityRanker F :=
  {| self_model := self_model self;
     self_device := self_device self;
     self_token := t;
     self_top_k := self_top_k self;
     self_query_prefix := self_query_prefix self;
     self_document_prefix := self_document_prefix self;
     self_meta_fields_to_embed := self_meta_fields_to_embed self;
     self_embedding_separator := self_embedding_separator self;
     self_scale_score := self_scale_score self;
     self_calibration_factor := self_calibration_factor self;
     self_score_threshold := self_score_threshold self;
     self_model_kwargs := self_model_kwargs self;
     _model := _model self |}.

(** ** Construction and warm-up *)

(** [__init__]; [device] is the device [ComponentDevice.resolve_device]
    returned. *)
Definition init {F : Type}
    (model : model_id) (device : ComponentDevice) (token : hf_token)
    (top_k : Z) (query_prefix document_prefix : string)
    (meta_fields_to_embed : option (list string))
    (embedding_separator : string) (scale_score : bool)
    (calibration_factor score_threshold : option F)
    (model_kwargs : option (gmap string kwarg_value))
  : result (TransformersSimilarityRanker F) :=
  if top_k <=? 0 then Raise (ValueError (top_k_must_be_positive top_k))
  else if scale_score && is_none calibration_factor
  then Raise (ValueError calibration_factor_must_be_provided)
  else if has_multiple_devices device then Raise (ValueError single_device_only)
  else Ok {| self_model := model;
             self_device := device;
             self_token := token;
             self_top_k := top_k;
             self_query_prefix := query_prefix;
             self_document_prefix := document_prefix;
             self_meta_fields_to_embed := default [] meta_fields_to_embed;
             self_embedding_separator := embedding_separator;
             self_scale_score := scale_score;
             self_calibration_factor := calibration_factor;
             self_score_threshold := score_threshold;
             self_model_kwargs := default ∅ model_kwargs;
             _model := None |}.

(** [warm_up]; [from_pretrained] is the Hugging Face loader, which returns
    the model and tokenizer for a name, a token and the model keyword
    arguments. *)
Definition warm_up {F : Type}
    (from_pretrained : model_id → hf_token → gmap string kwarg_value → CrossEncoder F)
    (self : TransformersSimilarityRanker F) : TransformersSimilarityRanker F :=
  if is_none (_model self)
  then {| self_model := self_model self;
          self_device := self_device self;
          self_token := self_token self;
          self_top_k := self_top_k self;
          self_query_prefix := self_query_prefix self;
          self_document_prefix := self_document_prefix self;
          self_meta_fields_to_embed := self_meta_fields_to_embed self;
          self_embedding_separator := self_embedding_separator self;
          self_scale_score := self_scale_score self;
          self_calibration_factor := self_calibration_factor self;
          self_score_threshold := self_score_threshold self;
          self_model_kwargs := self_model_kwargs self;
          _model := Some (from_pretrained (self_model self) (self_token self)
                            (self_model_kwargs self)) |}
  else self.

(** ** Ranking *)

Section Run.
Context {F : Type} `{!Runtime F}.
Implicit Types (self : TransformersSimilarityRanker F) (h : heap F)
  (documents ranked_docs : list loc) (doc : Document F).

(** [top_k or self.top_k] *)
Definition effective_top_k self (top_k : option Z) : Z :=
  match top_k with
  | Some k => if k =? 0 then self_top_k self else k
  | None => self_top_k self
  end.

(** [scale_score or self.scale_score] *)
Definition effective_scale_score self (scale_score : option bool) : bool :=
  match scale_score with
  | Some b => if b then true else self_scale_score self
  | None => self_scale_score self
  end.

(** [calibration_factor or self.calibration_factor] *)
Definition effective_calibration_factor self (calibration_factor : option F)
  : option F :=
  match calibration_factor with
  | Some c => if float_is_zero c then self_calibration_factor self else Some c
  | None => self_calibration_factor self
  end.

(** [score_threshold], replaced by [self.score_threshold] when it is
    [None] *)
Definition effective_score_threshold self (score_threshold : option F)
  : option F :=
  match score_threshold with
  | None => self_score_threshold self
  | Some t => Some t
  end.

(** [[str(doc.meta[key]) for key in self.meta_fields_to_embed
      if key in doc.meta and doc.meta[key]]] *)
Definition meta_values_to_embed self doc : list string :=
  omap (λ key,
          match meta doc !! key with
          | Some v => if truthy v then Some (py_str v) else None
          | None => None
          end)
       (self_meta_fields_to_embed self).

(** [self.embedding_separator.join(meta_values_to_embed + [doc.content or ""])] *)
Definition text_to_embed self doc : string :=
  String.concat (self_embedding_separator self)
    (meta_values_to_embed self doc ++ [default "" (content doc)]).

(** The loop that fills [query_doc_pairs]. *)
Definition query_doc_pairs self h (query : string) documents
  : list (string * string) :=
  foldl (λ pairs l,
           pairs ++ [(self_query_prefix self +:+ query,
                      self_document_prefix self +:+ text_to_embed self (h !!! l))])
        [] documents.

(** The tokenizer and model on a batch of pairs, [.logits.squeeze(dim=1)]. *)
Definition logits (m : CrossEncoder F) (pairs : list (string * string)) : list F :=
  (λ p, pair_logit m p.1 p.2) <$> pairs.

(** [if scale_score: similarity_scores =
      torch.sigmoid(similarity_scores * calibration_factor)] *)
Definition scale (scale_score : bool) (calibration_factor : option F)
    (similarity_scores : list F) : result (list F) :=
  if scale_score then
    match calibration_factor with
    | Some c => Ok ((λ x, torch_sigmoid (float_mul x c)) <$> similarity_scores)
    | None => Raise TypeError
    end
  else Ok similarity_scores.

(** The body of the loop over [sorted_indices]:
    [documents[i].score = similarity_scores[i]] and
    [ranked_docs.append(documents[i])]. *)
Definition rank_step documents (similarity_scores : list F)
    (st : heap F * list loc) (i : nat) : result (heap F * list loc) :=
  d ← getitem documents i;
  s ← getitem similarity_scores i;
  Ok (alter (set_score s) d st.1, st.2 ++ [d]).

(** [doc.score >= score_threshold], for the document object at [l] *)
Definition score_ge h (score_threshold : F) (l : loc) : result bool :=
  match score (h !!! l) with
  | Some s => Ok (float_ge s score_threshold)
  | None => Raise TypeError
  end.

(** [run]: the store after the call and the list under ["documents"]. *)
Definition run self h (query : string) documents
    (top_k : option Z) (scale_score : option bool)
    (calibration_factor score_threshold : option F)
  : result (heap F * list loc) :=
  if bool_decide (documents = []) then Ok (h, [])
  else
    let top_k := effective_top_k self top_k in
    if top_k <=? 0 then Raise (ValueError (top_k_must_be_positive top_k))
    else
      let scale_score := effective_scale_score self scale_score in
      let calibration_factor :=
        effective_calibration_factor self calibration_factor in
      if scale_score && is_none calibration_factor
      then Raise (ValueError calibration_factor_must_be_provided)
      else
        let score_threshold :=
          effective_score_threshold self score_threshold in
        if model_truthy (self_model self) && is_none (_model self)
        then Raise ComponentError
        else
          let query_doc_pairs := query_doc_pairs self h query documents in
          m ← match _model self with
              | Some m => Ok m
              | None => Raise TypeError
              end;
          similarity_scores ← scale scale_score calibration_factor
                                (logits m query_doc_pairs);
          let sorted_indices := torch_sort_descending similarity_scores in
          '(h', ranked_docs) ← for_each (rank_step documents similarity_scores)
                                 sorted_indices (h, []);
          ranked_docs ← match score_threshold with
                        | Some t => comprehension_if (score_ge h' t) ranked_docs
                        | None => Ok ranked_docs
                        end;
          Ok (h', take (Z.to_nat top_k) ranked_docs).

End Run.

(** ** What the sort is expected to return *)

Section Contract.
Context {F : Type} `{!Runtime F}.

(** [xs[i] >= xs[j]], for two positions of [xs] *)
Definition ge_at (xs : list F) (i j : nat) : bool :=
  match xs !! i, xs !! j with
  | Some x, Some y => float_ge x y
  | _, _ => false
  end.

(** [idxs] lists every position of [xs] once, values in descending order:
    what [torch.sort(xs, descending=True)] promises of its indices. *)
Definition sorts_descending (xs : list F) (idxs : list nat) : Prop :=
  idxs ≡ₚ seq 0 (length xs) ∧ StronglySorted (λ i j, ge_at xs i j) idxs.

(** Positions holding equal values come out in increasing order: what
    [stable=True] would add. *)
Definition keeps_ties_in_order (xs : list F) (idxs : list nat) : Prop :=
  StronglySorted (λ i j, ge_at xs j i → (i < j)%nat) idxs.

Global Instance sorts_descending_dec xs idxs : Decision (sorts_descending xs idxs).
Proof. unfold sorts_descending. apply _. Defined.

Global Instance keeps_ties_in_order_dec xs idxs :
  Decision (keeps_ties_in_order xs idxs).
Proof. unfold keeps_ties_in_order. apply _. Defined.
End Contract.

(** ** The vocabulary of the properties *)

Section Words.
Context {F : Type} `{!Runtime F}.
Implicit Types (self : TransformersSimilarityRanker F) (h : heap F)
  (doc : Document F).

(** A meta field that is present in [doc.meta] with a truthy value. *)
Definition present_and_truthy doc (key : string) : bool :=
  match meta doc !! key with
  | Some v => truthy v
  | None => false
  end.

(** The string value of a meta field. *)
Definition string_value doc (key : string) : string :=
  match meta doc !! key with
  | Some v => py_str v
  | None => ""
  end.

(** Each selected string value, then the separator, and the content (or
    the empty string) last. *)
Definition joined_text self doc : string :=
  foldr (λ v rest, v +:+ self_embedding_separator self +:+ rest)
    (match content doc with Some c => c | None => "" end)
    (string_value doc <$>
       filter (λ key, present_and_truthy doc key) (self_meta_fields_to_embed self)).

(** The pair [[query_prefix + query, document_prefix + text]]. *)
Definition text_pair self (query : string) doc : string * string :=
  (self_query_prefix self +:+ query,
   self_document_prefix self +:+ joined_text self doc).

(** The model logit of the document object at [l] for [query]. *)
Definition raw_logit self (m : CrossEncoder F) h (query : string) (l : loc) : F :=
  pair_logit m (self_query_prefix self +:+ query)
    (self_document_prefix self +:+ text_to_embed self (h !!! l)).

(** [sigmoid(logit * calibration_factor)] when scaling is on, the logit
    itself when it is off. *)
Definition calibrated (scale_score : bool) (calibration_factor : option F)
    (x : F) : F :=
  if scale_score then
    match calibration_factor with
    | Some c => torch_sigmoid (float_mul x c)
    | None => x
    end
  else x.

(** The similarity score [run] computes for the document object at [l]. *)
Definition similarity_score self (m : CrossEncoder F) h (query : string)
    (scale_score : option bool) (calibration_factor : option F) (l : loc) : F :=
  calibrated (effective_scale_score self scale_score)
    (effective_calibration_factor self calibration_factor)
    (raw_logit self m h query l).

(** The documents found at the positions [idxs] of the input list. *)
Definition at_positions (documents : list loc) (idxs : list nat) : list loc :=
  omap (λ i, documents !! i) idxs.

(** The store once each object of [ls] has been given its score. *)
Definition assign_scores (f : loc → F) (ls : list loc) h : heap F :=
  foldl (λ h' l, alter (set_score (f l)) l h') h ls.

(** The store after a sequence of assignments [l.score = s]. *)
Definition write_scores (ps : list (loc * F)) h : heap F :=
  foldl (λ h' p, alter (set_score p.2) p.1 h') h ps.

(** The score last assigned to [l] in such a sequence, if any. *)
Definition last_assigned (ps : list (loc * F)) (l : loc) : option F :=
  foldl (λ o p, if decide (p.1 = l) then Some p.2 else o) None ps.

(** Whether a score passes the threshold in effect, if there is one. *)
Definition meets (score_threshold : option F) (s : F) : bool :=
  match score_threshold with
  | Some t => float_ge s t
  | None => true
  end.

(** Whether the value at position [i] passes the threshold in effect. *)
Definition passes (xs : list F) (score_threshold : option F) (i : nat) : bool :=
  match xs !! i with
  | Some s => meets score_threshold s
  | None => false
  end.

(** The positions of the input list that a call returns, in order: those
    of the sort that pass the threshold, cut at [top_k]. *)
Definition returned_positions (xs : list F) (score_threshold : option F)
    (top_k : Z) : list nat :=
  take (Z.to_nat top_k)
    (filter (λ i, passes xs score_threshold i) (torch_sort_descending xs)).

(** Documents of equal score come out in their input order: [out] is read
    off distinct input positions, and among these a position whose score
    equals that of an earlier one is the larger one. *)
Definition ties_in_input_order (xs : list F) (documents out : list loc) : Prop :=
  ∃ js : list nat,
    Forall2 (λ i l, documents !! i = Some l) js out ∧
    NoDup js ∧ keeps_ties_in_order xs js.

(** The conditions under which a call goes through to ranking: the
    component is warmed up with [m], the overrides are acceptable, every
    listed document is a live object, and the sort returned a descending
    order of this batch of scores. *)
Definition accepted self (m : CrossEncoder F) h (query : string)
    (documents : list loc) (top_k : option Z) (scale_score : option bool)
    (calibration_factor : option F) : Prop :=
  let xs := similarity_score self m h query scale_score calibration_factor
              <$> documents in
  _model self = Some m ∧
  0 < effective_top_k self top_k ∧
  (effective_scale_score self scale_score →
     is_Some (effective_calibration_factor self calibration_factor)) ∧
  Forall (λ l, is_Some (h !! l)) documents ∧
  sorts_descending xs (torch_sort_descending xs).
End Words.

(** ** A test runtime

    Integer scores in place of floats, a rational squashing function in
    place of the logistic one, and two sorts that both return a descending
    order of positions: an insertion sort, which keeps tied positions in
    input order, and a sort that partitions longer inputs around a pivot
    before inserting, as quicksort-based library sorts do, which does not. *)

Module Test.

(** A stand-in for the logistic function, in thousandths. *)
Definition squash (x : Z) : Z := 500 + 500 * x / (1 + Z.abs x).

Definition value_at (xs : list Z) (i : nat) : Z := default 0 (xs !! i).

(** Insertion into a descending list of indices, after the positions of
    equal value. *)
Fixpoint insert_after_ties (xs : list Z) (i : nat) (idxs : list nat) : list nat :=
  match idxs with
  | [] => [i]
  | j :: rest =>
      if value_at xs j <? value_at xs i then i :: j :: rest
      else j :: insert_after_ties xs i rest
  end.

Definition sort_keeping_ties (xs : list Z) : list nat :=
  foldl (λ idxs i, insert_after_ties xs i idxs) [] (seq 0 (length xs)).

(** Whether the value at position [a] sorts strictly before that at [b]. *)
Definition before (xs : list Z) (a b : nat) : bool :=
  value_at xs b <? value_at xs a.

(** The position stored in cell [p] of the array of positions. *)
Definition entry (arr : list nat) (p : nat) : nat := default 0%nat (arr !! p).

Definition swap (arr : list nat) (p q : nat) : list nat :=
  <[p := entry arr q]> (<[q := entry arr p]> arr).

(** The median of the cells [a], [b], [c] goes to cell 0, as the pivot. *)
Definition median_to_first (xs : list Z) (arr : list nat) (a b c : nat)
  : list nat :=
  let lt p q := before xs (entry arr p) (entry arr q) in
  if lt a b then
    if lt b c then swap arr 0 b
    else if lt a c then swap arr 0 c
    else swap arr 0 a
  else if lt a c then swap arr 0 a
  else if lt b c then swap arr 0 c
  else swap arr 0 b.

Fixpoint scan_up (fuel : nat) (xs : list Z) (arr : list nat) (first : nat) : nat :=
  match fuel with
  | O => first
  | S fuel =>
      if before xs (entry arr first) (entry arr 0)
      then scan_up fuel xs arr (S first)
      else first
  end.

Fixpoint scan_down (fuel : nat) (xs : list Z) (arr : list nat) (last : nat) : nat :=
  match fuel with
  | O => last
  | S fuel =>
      if before xs (entry arr 0) (entry arr last)
      then scan_down fuel xs arr (Nat.pred last)
      else last
  end.

(** The two-pointer partition of the cells from [first] up to [last]
    around the pivot in cell 0; cells holding a value equal to the pivot's
    are swapped across. *)
Fixpoint partition (fuel : nat) (xs : list Z) (arr : list nat) (first last : nat)
  : list nat :=
  match fuel with
  | O => arr
  | S fuel =>
      let first := scan_up (length arr) xs arr first in
      let last := scan_down (length arr) xs arr (Nat.pred last) in
      if (first <? last)%nat
      then partition fuel xs (swap arr first last) (S first) last
      else arr
  end.

(** Up to 16 values: insertion sort.  Beyond: one partition step around
    the median of three, then insertion sort. *)
Definition sort_by_partitioning (xs : list Z) : list nat :=
  let n := length xs in
  let arr := seq 0 n in
  let arr := if (16 <? n)%nat
             then partition n xs (median_to_first xs arr 1 (n / 2) (n - 1)) 1 n
             else arr in
  foldl (λ idxs i, insert_after_ties xs i idxs) [] arr.

(** The test runtime with [answer] for its sort. *)
Definition runtime_sorting_with (answer : list Z → list nat) : Runtime Z :=
  {| float_mul := Z.mul;
     float_ge := Z.geb;
     float_is_zero := Z.eqb 0;
     torch_sigmoid := squash;
     torch_sort_descending := answer |}.

Definition runtime : Runtime Z :=
  {| float_mul := Z.mul;
     float_ge := Z.geb;
     float_is_zero := Z.eqb 0;
     torch_sigmoid := squash;
     torch_sort_descending := sort_keeping_ties |}.

(** A scorer that prefers longer document texts. *)
Definition encoder : CrossEncoder Z :=
  {| pair_logit := λ _ text, Z.of_nat (String.length text) - 5 |}.

Definition document (content : string) : Document Z :=
  {| id := content; content := Some content; meta := ∅; score := None |}.

(** The ranker of the class docstring, warmed up with [encoder]. *)
Definition ranker : TransformersSimilarityRanker Z :=
  {| self_model := ModelStr "cross-encoder/ms-marco-MiniLM-L-6-v2";
     self_device := {| device_repr := "cpu"; has_multiple_devices := false |};
     self_token := TokenNone;
     self_top_k := 10;
     self_query_prefix := "";
     self_document_prefix := "";
     self_meta_fields_to_embed := [];
     self_embedding_separator := String (Ascii.ascii_of_nat 10) "";
     self_scale_score := true;
     self_calibration_factor := Some 1;
     self_score_threshold := None;
     self_model_kwargs := ∅;
     _model := Some encoder |}.

(** [docs = [Document(content="Paris"), Document(content="Berlin")]] *)
Definition store : heap Z :=
  <[1%positive := document "Paris"]> (<[2%positive := document "Berlin"]> ∅).

Definition docs : list loc := [1%positive; 2%positive].

Definition query : string := "City in Germany".

(** Three documents of equal length, hence of equal score. *)
Definition tied_store : heap Z :=
  <[1%positive := document "Paris"]> (<[2%positive := document "Milan"]>
    (<[3%positive := document "Turin"]> ∅)).

Definition tied_docs : list loc := [1%positive; 2%positive; 3%positive].

(** Seventeen documents of equal score. *)
Definition seventeen_docs : list loc := Pos.of_nat <$> seq 1 17.

Definition seventeen_store : heap Z :=
  list_to_map ((λ l, (l, document "Paris")) <$> seventeen_docs).

(** A document with meta data, and a ranker that embeds some of it. *)
Definition article : Document Z :=
  {| id := "a1";
     content := Some "body";
     meta := <["title" := PyStr "Title"]> (<["views" := PyInt 0]>
               (<["year" := PyInt 2020]> (<["draft" := PyBool false]> ∅)));
     score := None |}.

Definition meta_ranker : TransformersSimilarityRanker Z :=
  {| self_model := ModelStr "cross-encoder/ms-marco-MiniLM-L-6-v2";
     self_device := {| device_repr := "cpu"; has_multiple_devices := false |};
     self_token := TokenStr "hf_secret";
     self_top_k := 10;
     self_query_prefix := "query: ";
     self_document_prefix := "passage: ";
     self_meta_fields_to_embed := ["title"; "views"; "author"; "year"; "draft"];
     self_embedding_separator := " | ";
     self_scale_score := true;
     self_calibration_factor := Some 1;
     self_score_threshold := None;
     self_model_kwargs := ∅;
     _model := Some encoder |}.

End Test.

(** The docstring's example: Berlin comes out first, and both documents
    now carry their scores. *)
Example run_docstring_example :
  match @run Z Test.runtime Test.ranker Test.store Test.query Test.docs
          None None None None with
  | Ok (h, out) => Some (out, (λ l : loc, score (h !!! l)) <$> Test.docs)
  | Raise _ => None
  end = Some ([2%positive; 1%positive], [Some 500; Some 750]).
Proof. vm_compute. reflexivity. Qed.

(** Absent, falsy and missing meta fields are skipped; the content comes
    last. *)
Example query_doc_pairs_example :
  @query_doc_pairs Z Test.meta_ranker (<[7%positive := Test.article]> ∅)
    "what?" [7%positive] =
  [("query: what?", "passage: Title | 2020 | body")].
Proof. vm_compute. reflexivity. Qed.

(** A negative [top_k] is refused, a zero one is not; a component that was
    not warmed up is refused. *)
Example run_errors_example :
  @run Z Test.runtime Test.ranker Test.store Test.query Test.docs
    (Some (-1)) None None None = Raise (ValueError (top_k_must_be_positive (-1))) ∧
  @run Z Test.runtime Test.ranker Test.store Test.query Test.docs
    (Some 0) None None None =
  @run Z Test.runtime Test.ranker Test.store Test.query Test.docs
    None None None None ∧
  (∀ self,
     init (ModelStr "cross-encoder/ms-marco-MiniLM-L-6-v2")
       {| device_repr := "cpu"; has_multiple_devices := false |} TokenNone 10
       "" "" None " " true (Some 1) None None = Ok self →
     @run Z Test.runtime self Test.store Test.query Test.docs
       None None None None = Raise ComponentError ∧
     ∃ h' out,
       @run Z Test.runtime (warm_up (λ _ _ _, Test.encoder) self) Test.store
         Test.query Test.docs None None None None = Ok (h', out)).
Proof.
  split; [by vm_compute|]. split; [by vm_compute|].
  intros self [= <-]. split; [by vm_compute|].
  do 2 eexists. vm_compute. reflexivity.
Qed.

(** * Properties *)

(** ** The result monad and the loops *)

Lemma for_each_cons {A S : Type} (body : S → A → result S) (x : A) (l : list A)
    (s : S) :
  for_each body (x :: l) s = (s' ← body s x; for_each body l s').
Proof. done. Qed.

Lemma for_each_raises {A S : Type} (body : S → A → result S) (l : list A)
    (s : S) (e : exn) :
  for_each body l s = Raise e → ∃ s' x, body s' x = Raise e.
Proof.
  revert s. induction l as [|x l IH]; intros s; [done|].
  rewrite for_each_cons. destruct (body s x) as [s'|e'] eqn:Hbody.
  - apply IH.
  - intros [= ->]. eauto.
Qed.

Lemma comprehension_if_raises {A : Type} (c : A → result bool) (l : list A)
    (e : exn) :
  comprehension_if c l = Raise e → ∃ x, c x = Raise e.
Proof.
  induction l as [|x l IH]; [done|]. cbn [comprehension_if].
  destruct (c x) as [b|e'] eqn:Hc; cbn [mbind result_bind].
  - destruct (comprehension_if c l) as [rest|e'']; [done|].
    intros [= ->]. by apply IH.
  - intros [= ->]. eauto.
Qed.

Lemma comprehension_if_pure {A : Type} (c : A → result bool) (p : A → bool)
    (l : list A) :
  Forall (λ x, c x = Ok (p x)) l →
  comprehension_if c l = Ok (filter (λ x, p x) l).
Proof.
  induction 1 as [|x l Hx _ IH]; simpl; [done|].
  rewrite Hx, IH. simpl. rewrite filter_cons.
  destruct (p x); simpl; by repeat case_decide.
Qed.

Lemma filter_all {A : Type} (l : list A) : filter (λ _, Is_true true) l = l.
Proof. induction l as [|x l IH]; [done|]. by rewrite filter_cons_True, IH. Qed.

Lemma StronglySorted_sublist {A : Type} (R : relation A) (l1 l2 : list A) :
  l1 `sublist_of` l2 → StronglySorted R l2 → StronglySorted R l1.
Proof.
  induction 1 as [|x l1 l2 Hsub IH|x l1 l2 Hsub IH]; intros Hsorted.
  - constructor.
  - apply StronglySorted_cons in Hsorted as [Hx Hl2].
    constructor; [by apply IH|].
    apply Forall_forall. intros y Hy. rewrite Forall_forall in Hx.
    by eapply Hx, elem_of_sublist.
  - apply StronglySorted_cons in Hsorted as [_ Hl2]. by apply IH.
Qed.

Lemma StronglySorted_elem_of_impl {A : Type} (R1 R2 : relation A) (l : list A) :
  (∀ x y, x ∈ l → y ∈ l → R1 x y → R2 x y) →
  StronglySorted R1 l → StronglySorted R2 l.
Proof.
  intros HR Hsorted. induction Hsorted as [|x l Hl IH Hx]; [constructor|].
  constructor.
  - apply IH. intros y z Hy Hz. apply HR; by apply elem_of_cons; right.
  - apply Forall_forall. intros y Hy. rewrite Forall_forall in Hx.
    apply HR; [apply elem_of_cons; by left|apply elem_of_cons; by right|by apply Hx].
Qed.

Lemma StronglySorted_Forall2 {A B : Type} (P : A → B → Prop)
    (R1 : relation A) (R2 : relation B) (l : list A) (k : list B) :
  (∀ x1 x2 y1 y2, P x1 y1 → P x2 y2 → R1 x1 x2 → R2 y1 y2) →
  Forall2 P l k → StronglySorted R1 l → StronglySorted R2 k.
Proof.
  intros HR. induction 1 as [|x y l k Hxy Hlk IH]; intros Hsorted.
  { constructor. }
  apply StronglySorted_cons in Hsorted as [Hx Hl].
  constructor; [by apply IH|].
  clear IH Hl. induction Hlk as [|x' y' l k Hxy' _ IH]; [constructor|].
  apply Forall_cons in Hx as [Hxx' Hx]. constructor; eauto.
Qed.

Lemma filter_ext_elem_of_Forall {A : Type} (P Q : A → Prop)
    `{!∀ x, Decision (P x)} `{!∀ x, Decision (Q x)} (l : list A) :
  Forall (λ x, P x ↔ Q x) l → filter P l = filter Q l.
Proof.
  induction 1 as [|x l Hx _ IH]; [done|].
  destruct (decide (P x)) as [HP|HP].
  - rewrite !filter_cons_True by tauto. by rewrite IH.
  - rewrite !filter_cons_False by tauto. by rewrite IH.
Qed.

(** ** Building the text pairs *)

Section Text.
Context {F : Type} `{!Runtime F}.
Implicit Types (self : TransformersSimilarityRanker F) (h : heap F)
  (documents : list loc) (doc : Document F).

Lemma concat_snoc_foldr (sep last : string) (vs : list string) :
  String.concat sep (vs ++ [last]) = foldr (λ v rest, v +:+ sep +:+ rest) last vs.
Proof.
  induction vs as [|v vs IH]; [done|].
  change ((v :: vs) ++ [last]) with (v :: (vs ++ [last])).
  simpl. rewrite <- IH. by destruct (vs ++ [last]) eqn:E; [destruct vs|].
Qed.

Lemma meta_values_filter self doc :
  meta_values_to_embed self doc =
  string_value doc <$>
    filter (λ key, present_and_truthy doc key) (self_meta_fields_to_embed self).
Proof.
  unfold meta_values_to_embed.
  induction (self_meta_fields_to_embed self) as [|key keys IH]; [done|].
  simpl. destruct (decide (present_and_truthy doc key)) as [Hkey|Hkey].
  - rewrite filter_cons_True by done. rewrite fmap_cons, <- IH.
    unfold present_and_truthy in Hkey. unfold string_value.
    destruct (meta doc !! key) as [v|]; [|done]. by destruct (truthy v).
  - rewrite filter_cons_False by done. rewrite <- IH.
    unfold present_and_truthy in Hkey.
    destruct (meta doc !! key) as [v|]; [|done]. by destruct (truthy v).
Qed.

Lemma text_to_embed_joined self doc : text_to_embed self doc = joined_text self doc.
Proof.
  unfold text_to_embed, joined_text.
  rewrite concat_snoc_foldr, meta_values_filter. by destruct (content doc).
Qed.

Lemma query_doc_pairs_fmap self h query documents :
  query_doc_pairs self h query documents =
  (λ l, text_pair self query (h !!! l)) <$> documents.
Proof.
  unfold query_doc_pairs.
  induction documents as [|l documents IH] using rev_ind; [done|].
  rewrite foldl_app, fmap_app, IH. simpl.
  unfold text_pair. by rewrite text_to_embed_joined.
Qed.

Lemma logits_raw self m h query documents :
  logits m (query_doc_pairs self h query documents) =
  raw_logit self m h query <$> documents.
Proof.
  rewrite query_doc_pairs_fmap. unfold logits.
  rewrite <- list_fmap_compose. apply list_fmap_ext. intros _ l _. simpl.
  unfold raw_logit. by rewrite text_to_embed_joined.
Qed.
End Text.

(** ** The ranking loop and the store *)

Section Ranking.
Context {F : Type} `{!Runtime F}.
Implicit Types (self : TransformersSimilarityRanker F) (h : heap F)
  (documents ls : list loc) (doc : Document F) (f : loc → F).

Lemma set_score_twice (s : F) doc : set_score s (set_score s doc) = set_score s doc.
Proof. done. Qed.

Lemma sorts_descending_in_range (xs : list F) (idxs : list nat) :
  sorts_descending xs idxs → Forall (λ i, (i < length xs)%nat) idxs.
Proof.
  intros [Hperm _]. apply Forall_forall. intros i Hi.
  rewrite Hperm in Hi. apply elem_of_seq in Hi. lia.
Qed.

Lemma at_positions_in_range documents (idxs : list nat) :
  Forall (λ i, (i < length documents)%nat) idxs →
  Forall2 (λ i l, documents !! i = Some l) idxs (at_positions documents idxs).
Proof.
  induction 1 as [|i idxs Hi _ IH]; [constructor|].
  apply lookup_lt_is_Some_2 in Hi as [l Hl].
  unfold at_positions. simpl. rewrite Hl. simpl. by constructor.
Qed.

Lemma rank_step_in_range f documents (i : nat) (l : loc) h (acc : list loc) :
  documents !! i = Some l →
  rank_step documents (f <$> documents) (h, acc) i =
  Ok (alter (set_score (f l)) l h, acc ++ [l]).
Proof.
  intros Hl. unfold rank_step, getitem.
  rewrite list_lookup_fmap, Hl. done.
Qed.

Lemma rank_loop f documents (idxs : list nat) h (acc : list loc) :
  Forall (λ i, (i < length documents)%nat) idxs →
  for_each (rank_step documents (f <$> documents)) idxs (h, acc) =
  Ok (assign_scores f (at_positions documents idxs) h,
      acc ++ at_positions documents idxs).
Proof.
  intros Hin. revert h acc.
  induction Hin as [|i idxs Hi _ IH]; intros h acc.
  { cbn. by rewrite app_nil_r. }
  apply lookup_lt_is_Some_2 in Hi as [l Hl].
  cbn [for_each]. rewrite (rank_step_in_range _ _ _ l) by done.
  cbn [mbind result_bind]. rewrite IH.
  unfold at_positions. cbn [omap list_omap]. rewrite Hl.
  by rewrite <- app_assoc.
Qed.

Lemma lookup_assign_scores f ls h (l : loc) :
  assign_scores f ls h !! l =
  if decide (l ∈ ls) then set_score (f l) <$> h !! l else h !! l.
Proof.
  revert h. induction ls as [|l0 ls IH]; intros h.
  { by rewrite decide_False by apply not_elem_of_nil. }
  unfold assign_scores in *. simpl. rewrite IH.
  destruct (decide (l = l0)) as [->|Hne].
  - rewrite lookup_alter_eq, (decide_True _ _ (list_elem_of_here _ _)).
    case_decide; [|done]. rewrite <- option_fmap_compose.
    apply option_fmap_ext. intros doc. apply set_score_twice.
  - rewrite lookup_alter_ne by done.
    destruct (decide (l ∈ ls)) as [Hin|Hin].
    + rewrite decide_True; [done|]. apply elem_of_cons. by right.
    + rewrite decide_False; [done|]. apply not_elem_of_cons. by split.
Qed.

Lemma score_assigned f ls h (l : loc) :
  l ∈ ls → is_Some (h !! l) → score (assign_scores f ls h !!! l) = Some (f l).
Proof.
  intros Hl [doc Hdoc]. rewrite lookup_total_alt, lookup_assign_scores.
  rewrite decide_True by done. by rewrite Hdoc.
Qed.

Lemma at_positions_elem_of documents (idxs : list nat) (l : loc) :
  l ∈ at_positions documents idxs → l ∈ documents.
Proof.
  unfold at_positions. rewrite list_elem_of_omap.
  intros (i & _ & Hi). by eapply list_elem_of_lookup_2.
Qed.

Lemma scale_calibrated (scale_score : bool) (calibration_factor : option F)
    (xs : list F) :
  (scale_score → is_Some calibration_factor) →
  scale scale_score calibration_factor xs =
  Ok (calibrated scale_score calibration_factor <$> xs).
Proof.
  unfold scale, calibrated. destruct scale_score.
  - intros [c ->]; done.
  - intros _. by rewrite list_fmap_id.
Qed.

Lemma threshold_filter f (t : F) ls ranked h :
  Forall (λ l, is_Some (h !! l)) ls → ranked ⊆ ls →
  comprehension_if (score_ge (assign_scores f ranked h) t) ranked =
  Ok (filter (λ l, meets (Some t) (f l)) ranked).
Proof.
  intros Hlive Hsub. apply (comprehension_if_pure _ (λ l, float_ge (f l) t)).
  apply Forall_forall. intros l Hl. unfold score_ge.
  rewrite score_assigned; [done..|].
  rewrite Forall_forall in Hlive. apply Hlive, Hsub, Hl.
Qed.

(** An accepted call returns: the store with every ranked document
    scored, and the ranked list, filtered and cut. *)
Lemma run_accepted self (m : CrossEncoder F) h (query : string) documents
    (top_k : option Z) (scale_score : option bool)
    (calibration_factor score_threshold : option F) :
  let f := similarity_score self m h query scale_score calibration_factor in
  let ranked := at_positions documents (torch_sort_descending (f <$> documents)) in
  documents ≠ [] →
  accepted self m h query documents top_k scale_score calibration_factor →
  run self h query documents top_k scale_score calibration_factor score_threshold =
  Ok (assign_scores f ranked h,
      take (Z.to_nat (effective_top_k self top_k))
        (filter (λ l, meets (effective_score_threshold self score_threshold) (f l))
           ranked)).
Proof.
  intros f ranked Hne (Hm & Hk & Hcf & Hlive & Hsort). unfold run.
  rewrite bool_decide_eq_false_2 by done.
  destruct (Z.leb_spec (effective_top_k self top_k) 0) as [?|_]; [lia|].
  assert (effective_scale_score self scale_score &&
          is_none (effective_calibration_factor self calibration_factor) = false)
    as ->.
  { destruct (effective_scale_score self scale_score); [|done].
    by destruct Hcf as [c ->]. }
  rewrite Hm, andb_false_r. cbn [mbind result_bind is_none].
  rewrite logits_raw, scale_calibrated by done.
  cbn [mbind result_bind]. rewrite <- list_fmap_compose.
  change (calibrated _ _ ∘ raw_logit self m h query) with f.
  rewrite rank_loop; last first.
  { apply sorts_descending_in_range in Hsort.
    by rewrite length_fmap in Hsort. }
  cbn [mbind result_bind app]. fold ranked.
  destruct (effective_score_threshold self score_threshold) as [t|].
  - rewrite (threshold_filter f t documents); [done..|].
    intros l. apply at_positions_elem_of.
  - cbn [mbind result_bind]. by rewrite filter_all.
Qed.

Lemma at_positions_unique documents (js : list nat) (out : list loc) :
  Forall2 (λ i l, documents !! i = Some l) js out → out = at_positions documents js.
Proof.
  induction 1 as [|i l js out Hi _ IH]; [done|].
  unfold at_positions. cbn [omap list_omap]. rewrite Hi. by f_equal.
Qed.

Lemma passes_meets f documents (thr : option F) (i : nat) (l : loc) :
  documents !! i = Some l → passes (f <$> documents) thr i = meets thr (f l).
Proof. intros Hi. unfold passes. by rewrite list_lookup_fmap, Hi. Qed.

Lemma returned_at_positions f documents (thr : option F) (n : nat) (idxs : list nat) :
  Forall (λ i, (i < length documents)%nat) idxs →
  take n (filter (λ l, meets thr (f l)) (at_positions documents idxs)) =
  at_positions documents (take n (filter (λ i, passes (f <$> documents) thr i) idxs)).
Proof.
  intros Hin. apply at_positions_unique, Forall2_take.
  apply Forall2_filter; [|by apply at_positions_in_range].
  intros i l Hi. by rewrite (passes_meets _ _ _ _ l).
Qed.

Lemma at_positions_seq (ls1 ls2 : list loc) :
  at_positions (ls1 ++ ls2) (seq (length ls1) (length ls2)) = ls2.
Proof.
  revert ls1. induction ls2 as [|l ls2 IH]; intros ls1; [done|].
  unfold at_positions. cbn [length seq omap list_omap].
  rewrite list_lookup_middle by done. cbn. f_equal.
  specialize (IH (ls1 ++ [l])). rewrite <- app_assoc, length_app in IH.
  cbn in IH. by rewrite Nat.add_1_r in IH.
Qed.

Lemma at_positions_perm documents (idxs : list nat) :
  idxs ≡ₚ seq 0 (length documents) → at_positions documents idxs ≡ₚ documents.
Proof.
  intros Hperm. unfold at_positions. rewrite Hperm.
  apply (reflexive_eq (R := (≡ₚ))), (at_positions_seq [] documents).
Qed.

(** The same result, read as positions of the input list. *)
Lemma run_positions self (m : CrossEncoder F) h (query : string) documents
    (top_k : option Z) (scale_score : option bool)
    (calibration_factor score_threshold : option F) :
  let f := similarity_score self m h query scale_score calibration_factor in
  let ranked := at_positions documents (torch_sort_descending (f <$> documents)) in
  documents ≠ [] →
  accepted self m h query documents top_k scale_score calibration_factor →
  run self h query documents top_k scale_score calibration_factor score_threshold =
  Ok (assign_scores f ranked h,
      at_positions documents
        (returned_positions (f <$> documents)
           (effective_score_threshold self score_threshold)
           (effective_top_k self top_k))).
Proof.
  intros f ranked Hne Hacc. rewrite (run_accepted _ m) by done.
  destruct Hacc as (_ & _ & _ & _ & Hsort).
  apply sorts_descending_in_range in Hsort. rewrite length_fmap in Hsort.
  unfold returned_positions. by rewrite <- returned_at_positions.
Qed.

Lemma returned_positions_sublist (xs : list F) (thr : option F) (k : Z) :
  returned_positions xs thr k `sublist_of` torch_sort_descending xs.
Proof.
  unfold returned_positions. etransitivity; [apply sublist_take|].
  apply sublist_filter.
Qed.

Lemma returned_positions_in_range (xs : list F) (thr : option F) (k : Z) :
  sorts_descending xs (torch_sort_descending xs) →
  Forall (λ i, (i < length xs)%nat) (returned_positions xs thr k).
Proof.
  intros Hsort%sorts_descending_in_range. rewrite Forall_forall in *.
  intros i Hi. eapply Hsort, elem_of_sublist; [done|].
  apply returned_positions_sublist.
Qed.

Lemma returned_positions_NoDup (xs : list F) (thr : option F) (k : Z) :
  sorts_descending xs (torch_sort_descending xs) →
  NoDup (returned_positions xs thr k).
Proof.
  intros [Hperm _]. eapply sublist_NoDup; [|apply returned_positions_sublist].
  rewrite Hperm. apply NoDup_seq.
Qed.
End Ranking.

(** ** The order of the returned documents *)

(** Discharges a decidable side condition on concrete data by evaluation. *)
Ltac by_evaluation := apply (bool_decide_unpack _); vm_compute; exact I.

(** Discharges [accepted] for a concrete call. *)
Ltac accept_call :=
  unfold accepted;
  split; [reflexivity|];
  split; [reflexivity|];
  split; [intros _; vm_compute; eauto|];
  split; by_evaluation.

Section Order.
Context {F : Type} `{!Runtime F}.
Implicit Types (self : TransformersSimilarityRanker F) (h : heap F)
  (documents out : list loc) (m : CrossEncoder F) (f : loc → F).

Lemma ge_at_scores f documents (i j : nat) (a b : loc) :
  documents !! i = Some a → documents !! j = Some b →
  ge_at (f <$> documents) i j = float_ge (f a) (f b).
Proof. intros Hi Hj. unfold ge_at. by rewrite !list_lookup_fmap, Hi, Hj. Qed.

Lemma returned_scores f documents (ranked out : list loc) h :
  Forall (λ l, is_Some (h !! l)) documents →
  ranked ⊆ documents → out ⊆ ranked →
  Forall (λ l, score (assign_scores f ranked h !!! l) = Some (f l)) out.
Proof.
  intros Hlive Hranked Hout. apply Forall_forall. intros l Hl.
  apply score_assigned; [by apply Hout|].
  rewrite Forall_forall in Hlive. by apply Hlive, Hranked, Hout.
Qed.

Lemma returned_subseteq_ranked f documents (thr : option F) (n : nat)
    (idxs : list nat) :
  take n (filter (λ l, meets thr (f l)) (at_positions documents idxs))
    ⊆ at_positions documents idxs.
Proof.
  apply sublist_subseteq. etransitivity; [apply sublist_take|apply sublist_filter].
Qed.

(** C1: for every query and non-empty list of documents, an accepted call
    returns documents of the input in descending order of similarity
    score (most similar first), every one of them carrying as its score
    the model logit of its query/document pair after the optional
    scaling; without a threshold and with [top_k] at least the number of
    documents, these are all the input documents. *)
Theorem run_returns_descending_scores self m h (query : string) documents
    (top_k : option Z) (scale_score : option bool)
    (calibration_factor score_threshold : option F) :
  let f l := calibrated (effective_scale_score self scale_score)
               (effective_calibration_factor self calibration_factor)
               (raw_logit self m h query l) in
  documents ≠ [] →
  accepted self m h query documents top_k scale_score calibration_factor →
  ∃ h' out,
    run self h query documents top_k scale_score calibration_factor
      score_threshold = Ok (h', out) ∧
    out ⊆ documents ∧
    Forall (λ l, score (h' !!! l) = Some (f l)) out ∧
    StronglySorted (λ a b, float_ge (f a) (f b)) out ∧
    (effective_score_threshold self score_threshold = None →
     (length documents ≤ Z.to_nat (effective_top_k self top_k))%nat →
     out ≡ₚ documents).
Proof.
  intros f Hne Hacc. do 2 eexists. split; [by apply (run_accepted _ m)|].
  fold (similarity_score self m h query scale_score calibration_factor) in f.
  fold f. pose proof Hacc as (_ & _ & _ & Hlive & Hperm & Hsorted).
  fold f in Hperm, Hsorted. rewrite length_fmap in Hperm.
  assert (Forall (λ i, (i < length documents)%nat)
            (torch_sort_descending (f <$> documents))) as Hin.
  { apply Forall_forall. intros i Hi. rewrite Hperm in Hi.
    apply elem_of_seq in Hi. lia. }
  repeat split.
  - etransitivity; [apply returned_subseteq_ranked|].
    intros l. apply at_positions_elem_of.
  - apply (returned_scores f documents); [done| |apply returned_subseteq_ranked].
    intros l. apply at_positions_elem_of.
  - eapply StronglySorted_sublist.
    { etransitivity; [apply sublist_take|apply sublist_filter]. }
    eapply StronglySorted_Forall2; [|by apply at_positions_in_range|done].
    intros i j a b Hi Hj. cbn beta. by rewrite (ge_at_scores _ _ _ _ a b).
  - intros -> Hlen. cbn [meets]. rewrite filter_all.
    rewrite take_ge; [by apply at_positions_perm|].
    apply at_positions_perm in Hperm. by rewrite Hperm.
Qed.

(** C2, as the code has it: [run] takes the order of [torch.sort], which
    it calls without [stable=True]; whenever the order returned for the
    batch keeps tied positions in increasing order, documents of equal
    score come out in their input order. *)
Theorem run_keeps_ties_when_sort_does self m h (query : string) documents
    (top_k : option Z) (scale_score : option bool)
    (calibration_factor score_threshold : option F) :
  let xs := similarity_score self m h query scale_score calibration_factor
              <$> documents in
  documents ≠ [] →
  accepted self m h query documents top_k scale_score calibration_factor →
  keeps_ties_in_order xs (torch_sort_descending xs) →
  ∃ h' out,
    run self h query documents top_k scale_score calibration_factor
      score_threshold = Ok (h', out) ∧
    ties_in_input_order xs documents out.
Proof.
  intros xs Hne Hacc Hties. do 2 eexists.
  split; [by apply (run_positions _ m)|].
  destruct Hacc as (_ & _ & _ & _ & Hsort). fold xs in Hsort |- *.
  eexists. split; [|split].
  - apply at_positions_in_range.
    pose proof (returned_positions_in_range xs
      (effective_score_threshold self score_threshold)
      (effective_top_k self top_k) Hsort) as Hin.
    unfold xs in Hin at 1. by rewrite length_fmap in Hin.
  - by apply returned_positions_NoDup.
  - eapply StronglySorted_sublist; [apply returned_positions_sublist|done].
Qed.
End Order.

Lemma run_returns_descending_scores_witness :
  ∃ h' out,
    @run Z Test.runtime Test.ranker Test.store Test.query Test.docs
      None None None None = Ok (h', out) ∧
    StronglySorted (λ a b, (score (h' !!! a), score (h' !!! b)) =
                           (Some 750, Some 500)) out.
Proof.
  destruct (@run_returns_descending_scores Z Test.runtime Test.ranker
              Test.encoder Test.store Test.query Test.docs None None None None)
    as (h' & out & Hrun & _); [done|accept_call|].
  exists h', out. split; [done|].
  vm_compute in Hrun. injection Hrun as <- <-.
  repeat constructor.
Defined.

Lemma run_keeps_ties_when_sort_does_witness :
  ∃ h' out,
    @run Z Test.runtime Test.ranker Test.tied_store Test.query Test.tied_docs
      None None None None = Ok (h', out) ∧ out = Test.tied_docs.
Proof.
  destruct (@run_keeps_ties_when_sort_does Z Test.runtime Test.ranker
              Test.encoder Test.tied_store Test.query Test.tied_docs
              None None None None)
    as (h' & out & Hrun & _); [done|accept_call|by_evaluation|].
  exists h', out. split; [done|].
  vm_compute in Hrun. by injection Hrun as <- <-.
Defined.

Lemma StronglySorted_all {A : Type} (R : relation A) (l : list A) :
  (∀ x y, x ∈ l → y ∈ l → R x y) → StronglySorted R l.
Proof.
  induction l as [|x l IH]; intros HR; constructor.
  - apply IH. intros y z Hy Hz. apply HR; apply elem_of_cons; by right.
  - apply Forall_forall. intros y Hy.
    apply HR; apply elem_of_cons; [by left|by right].
Qed.

Lemma positions_unique (documents : list loc) (js idxs : list nat)
    (out : list loc) :
  NoDup documents →
  Forall2 (λ i l, documents !! i = Some l) js out →
  Forall2 (λ i l, documents !! i = Some l) idxs out →
  js = idxs.
Proof.
  intros Hnd Hjs. revert idxs.
  induction Hjs as [|j l js out Hj _ IH]; intros idxs Hidxs.
  { by apply Forall2_nil_inv_r in Hidxs. }
  apply Forall2_cons_inv_r in Hidxs as (i & idxs' & Hi & Hidxs & ->).
  f_equal; [by eapply NoDup_lookup|by apply IH].
Qed.

(** On seventeen documents of equal score every order of the positions is
    a descending one; [run] returns the documents in the order the sort
    gives, so unless that is the input order the ties are not kept. *)
Lemma seventeen_ties_follow_the_sort (answer : list Z → list nat) :
  let xs := replicate 17 500 in
  let sorting := Test.runtime_sorting_with answer in
  answer xs ≡ₚ seq 0 17 →
  answer xs ≠ seq 0 17 →
  @accepted Z sorting Test.ranker Test.encoder Test.seventeen_store Test.query
    Test.seventeen_docs (Some 17) None None ∧
  ∃ h' out,
    @run Z sorting Test.ranker Test.seventeen_store Test.query
      Test.seventeen_docs (Some 17) None None None = Ok (h', out) ∧
    ¬ @ties_in_input_order Z sorting xs Test.seventeen_docs out.
Proof.
  intros xs sorting Hperm Hother.
  assert (@similarity_score Z sorting Test.ranker Test.encoder
            Test.seventeen_store Test.query None None <$> Test.seventeen_docs
          = xs) as Hxs by (by vm_compute).
  assert (Forall (λ i, (i < 17)%nat) (answer xs)) as Hin.
  { apply Forall_forall. intros i Hi. rewrite Hperm in Hi.
    apply elem_of_seq in Hi. lia. }
  assert (∀ i j, i ∈ answer xs → j ∈ answer xs → @ge_at Z sorting xs i j)
    as Hge.
  { intros i j Hi Hj. rewrite Forall_forall in Hin.
    unfold ge_at, xs.
    rewrite !lookup_replicate_2 by (by apply Hin). done. }
  assert (@accepted Z sorting Test.ranker Test.encoder Test.seventeen_store
            Test.query Test.seventeen_docs (Some 17) None None) as Hacc.
  { unfold accepted. rewrite Hxs.
    split; [reflexivity|]. split; [reflexivity|].
    split; [intros _; vm_compute; eauto|]. split; [by_evaluation|].
    split; [exact Hperm|]. by apply StronglySorted_all. }
  split; [done|]. do 2 eexists.
  split; [by apply (run_positions _ Test.encoder)|].
  rewrite Hxs. unfold returned_positions. cbn [torch_sort_descending sorting
    Test.runtime_sorting_with effective_score_threshold Test.ranker
    self_score_threshold effective_top_k].
  assert (filter (λ i, @passes Z sorting xs None i) (answer xs) = answer xs)
    as ->.
  { rewrite <- (filter_all (answer xs)) at 2.
    apply filter_ext_elem_of_Forall. eapply Forall_impl; [exact Hin|].
    intros i Hi. unfold passes, xs. by rewrite lookup_replicate_2. }
  rewrite take_ge by (by rewrite Hperm).
  intros (js & Hjs & _ & Hties).
  assert (js = answer xs) as ->.
  { eapply positions_unique; [|exact Hjs|].
    - by_evaluation.
    - by apply at_positions_in_range. }
  assert (AntiSymm eq lt) as Hanti by (intros x y; lia).
  apply Hother. apply (StronglySorted_unique lt); [| |done].
  - eapply StronglySorted_elem_of_impl; [|exact Hties].
    intros i j Hi Hj Hij. apply Hij. by apply Hge.
  - by_evaluation.
Qed.

(** C2 as stated fails.  A sort that partitions seventeen values around a
    pivot before inserting returns a descending order, the call is accepted,
    and [run] returns the seventeen equally scored documents in an order
    other than that of the input.  The same holds for every sort that
    answers these seventeen ties with an order other than the input's. *)
Lemma run_reorders_ties_counterexample :
  (Test.sort_by_partitioning (replicate 3 500) = [0; 1; 2]%nat ∧
   @accepted Z (Test.runtime_sorting_with Test.sort_by_partitioning)
     Test.ranker Test.encoder Test.seventeen_store Test.query
     Test.seventeen_docs (Some 17) None None ∧
   ∃ h',
     @run Z (Test.runtime_sorting_with Test.sort_by_partitioning) Test.ranker
       Test.seventeen_store Test.query Test.seventeen_docs (Some 17) None None
       None =
     Ok (h', [9; 17; 16; 15; 14; 13; 12; 11; 10; 1; 8; 7; 6; 5; 4; 3; 2]%positive) ∧
     ¬ @ties_in_input_order Z (Test.runtime_sorting_with Test.sort_by_partitioning)
         (replicate 17 500) Test.seventeen_docs
         [9; 17; 16; 15; 14; 13; 12; 11; 10; 1; 8; 7; 6; 5; 4; 3; 2]%positive) ∧
  (∀ answer : list Z → list nat,
     answer (replicate 17 500) ≡ₚ seq 0 17 →
     answer (replicate 17 500) ≠ seq 0 17 →
     @accepted Z (Test.runtime_sorting_with answer) Test.ranker Test.encoder
       Test.seventeen_store Test.query Test.seventeen_docs (Some 17) None None ∧
     ∃ h' out,
       @run Z (Test.runtime_sorting_with answer) Test.ranker
         Test.seventeen_store Test.query Test.seventeen_docs (Some 17) None
         None None = Ok (h', out) ∧
       ¬ @ties_in_input_order Z (Test.runtime_sorting_with answer)
           (replicate 17 500) Test.seventeen_docs out).
Proof.
  split; [|exact seventeen_ties_follow_the_sort].
  split; [by vm_compute|].
  destruct (seventeen_ties_follow_the_sort Test.sort_by_partitioning)
    as (Hacc & h' & out & Hrun & Hties); [by_evaluation|by_evaluation|].
  split; [done|]. exists h'.
  assert (∃ h1,
    @run Z (Test.runtime_sorting_with Test.sort_by_partitioning) Test.ranker
      Test.seventeen_store Test.query Test.seventeen_docs (Some 17) None None
      None =
    Ok (h1, [9; 17; 16; 15; 14; 13; 12; 11; 10; 1; 8; 7; 6; 5; 4; 3; 2]%positive))
    as [h1 Hexplicit] by (eexists; vm_compute; reflexivity).
  pose proof Hrun as Hsame. rewrite Hexplicit in Hsame.
  injection Hsame as _ Hout. subst out.
  split; [exact Hrun|exact Hties].
Qed.


(** ** Scaling, threshold and truncation *)

Section Threshold.
Context {F : Type} `{!Runtime F}.
Implicit Types (self : TransformersSimilarityRanker F) (h : heap F)
  (documents out : list loc) (m : CrossEncoder F) (f : loc → F).


Lemma ranked_scores f documents (idxs : list nat) h :
  Forall (λ l, is_Some (h !! l)) documents →
  Forall (λ l, score (assign_scores f (at_positions documents idxs) h !!! l) =
               Some (f l))
    (at_positions documents idxs).
Proof.
  intros Hlive. apply (returned_scores f documents); [done| |done].
  intros l. apply at_positions_elem_of.
Qed.

Lemma run_returned_scores self m h (query : string) documents
    (top_k : option Z) (scale_score : option bool)
    (calibration_factor score_threshold : option F) :
  documents ≠ [] →
  accepted self m h query documents top_k scale_score calibration_factor →
  ∃ h' out,
    run self h query documents top_k scale_score calibration_factor
      score_threshold = Ok (h', out) ∧
    Forall (λ l, score (h' !!! l) =
                 Some (similarity_score self m h query scale_score
                         calibration_factor l)) out.
Proof.
  intros Hne Hacc. do 2 eexists. split; [by apply (run_accepted _ m)|].
  destruct Hacc as (_ & _ & _ & Hlive & _).
  eapply returned_scores; [done| |apply returned_subseteq_ranked].
  intros l. apply at_positions_elem_of.
Qed.

Lemma similarity_score_scaled self m h (query : string)
    (scale_score : option bool) (calibration_factor : option F) (c : F) (l : loc) :
  effective_scale_score self scale_score = true →
  effective_calibration_factor self calibration_factor = Some c →
  similarity_score self m h query scale_score calibration_factor l =
  torch_sigmoid (float_mul (raw_logit self m h query l) c).
Proof. intros Hon Hc. unfold similarity_score, calibrated. by rewrite Hon, Hc. Qed.

(** C3: scaling is optional.  When the effective [scale_score] is true,
    every returned document's score is [sigmoid(logit * calibration_factor)]
    for its raw logit and the effective calibration factor; when it is
    false, every returned score is the raw logit itself. *)
Theorem run_scores_sigmoid_or_raw self m h (query : string) documents
    (top_k : option Z) (scale_score : option bool)
    (calibration_factor score_threshold : option F) :
  documents ≠ [] →
  accepted self m h query documents top_k scale_score calibration_factor →
  ∃ h' out,
    run self h query documents top_k scale_score calibration_factor
      score_threshold = Ok (h', out) ∧
    (effective_scale_score self scale_score = true →
     ∃ c, effective_calibration_factor self calibration_factor = Some c ∧
          Forall (λ l, score (h' !!! l) =
                       Some (torch_sigmoid (float_mul (raw_logit self m h query l) c)))
            out) ∧
    (effective_scale_score self scale_score = false →
     Forall (λ l, score (h' !!! l) = Some (raw_logit self m h query l)) out).
Proof.
  intros Hne Hacc. pose proof Hacc as (_ & _ & Hcf & _).
  destruct (run_returned_scores self m h query documents top_k scale_score
              calibration_factor score_threshold Hne Hacc)
    as (h' & out & Hrun & Hscores).
  exists h', out. split; [done|]. split.
  - intros Hon. rewrite Hon in Hcf. destruct Hcf as [c Hc]; [done|].
    exists c. split; [done|]. eapply Forall_impl; [exact Hscores|].
    intros l ->. by rewrite (similarity_score_scaled _ _ _ _ _ _ c).
  - intros Hoff. eapply Forall_impl; [exact Hscores|].
    intros l ->. unfold similarity_score, calibrated. by rewrite Hoff.
Qed.

(** C4: with a threshold in effect (the per-call one, or the configured one
    when the call gives none), the sorted list of all documents is filtered
    in one pass, in order: a document stays exactly when its score meets the
    threshold, and the [top_k] cut is applied to what stays. *)
Theorem run_filters_then_truncates self m h (query : string) documents
    (top_k : option Z) (scale_score : option bool)
    (calibration_factor score_threshold : option F) (t : F) :
  let f := similarity_score self m h query scale_score calibration_factor in
  let ranked := at_positions documents (torch_sort_descending (f <$> documents)) in
  documents ≠ [] →
  accepted self m h query documents top_k scale_score calibration_factor →
  match score_threshold with
  | Some t' => t' = t
  | None => self_score_threshold self = Some t
  end →
  ∃ h' kept,
    run self h query documents top_k scale_score calibration_factor
      score_threshold = Ok (h', take (Z.to_nat (effective_top_k self top_k)) kept) ∧
    ranked ≡ₚ documents ∧
    Forall (λ l, score (h' !!! l) = Some (f l)) ranked ∧
    kept = filter (λ l, float_ge (f l) t) ranked ∧
    kept `sublist_of` ranked ∧
    (∀ l, l ∈ ranked → float_ge (f l) t = true → l ∈ kept) ∧
    (∀ l, float_ge (f l) t = false → l ∉ kept).
Proof.
  intros f ranked Hne Hacc Ht.
  assert (effective_score_threshold self score_threshold = Some t) as Hthr.
  { destruct score_threshold; cbn; congruence. }
  do 2 eexists. split.
  { rewrite (run_accepted _ m) by done. rewrite Hthr. reflexivity. }
  destruct Hacc as (_ & _ & _ & Hlive & Hperm & _).
  rewrite length_fmap in Hperm. fold f ranked.
  split; [by apply at_positions_perm|].
  split; [by apply ranked_scores|].
  split; [done|]. split; [apply sublist_filter|]. split.
  - intros l Hl Hge. apply list_elem_of_filter. split; [|done].
    cbn. by rewrite Hge.
  - intros l Hlt [Hge _]%list_elem_of_filter. cbn in Hge. by rewrite Hlt in Hge.
Qed.

End Threshold.

Lemma run_scores_sigmoid_or_raw_witness :
  ∃ h' out,
    @run Z Test.runtime Test.ranker Test.store Test.query Test.docs
      None None None None = Ok (h', out) ∧
    (λ l : loc, score (h' !!! l)) <$> out =
    [Some (Test.squash (1 * 1)); Some (Test.squash (0 * 1))].
Proof.
  destruct (@run_scores_sigmoid_or_raw Z Test.runtime Test.ranker Test.encoder
              Test.store Test.query Test.docs None None None None)
    as (h' & out & Hrun & _); [done|accept_call|].
  exists h', out. split; [done|].
  vm_compute in Hrun. by injection Hrun as <- <-.
Defined.

Lemma run_filters_then_truncates_witness :
  ∃ h',
    @run Z Test.runtime Test.ranker Test.store Test.query Test.docs
      None None None (Some 600) = Ok (h', [2%positive]).
Proof.
  destruct (@run_filters_then_truncates Z Test.runtime Test.ranker Test.encoder
              Test.store Test.query Test.docs None None None (Some 600) 600)
    as (h' & kept & Hrun & _ & _ & Hkept & _); [done|accept_call|done|].
  exists h'. rewrite Hrun, Hkept. do 2 f_equal.
Defined.



(** ** The text pairs *)

(** C6: the pair built for each document is
    [[query_prefix + query, document_prefix + text]], where [text] joins,
    with [embedding_separator], the string values of the configured meta
    fields that are present and truthy in the document's meta, followed by
    the document's content, or by the empty string when the content is
    [None]. *)
Theorem query_doc_pairs_as_described {F : Type}
    (self : TransformersSimilarityRanker F) (h : heap F) (query : string)
    (documents : list loc) :
  query_doc_pairs self h query documents =
  (λ l, (self_query_prefix self +:+ query,
         self_document_prefix self +:+ joined_text self (h !!! l))) <$> documents ∧
  ∀ doc : Document F,
    joined_text self doc =
    String.concat (self_embedding_separator self)
      ((string_value doc <$>
          filter (λ key, present_and_truthy doc key)
            (self_meta_fields_to_embed self)) ++
       [match content doc with Some c => c | None => "" end]).
Proof.
  split; [apply query_doc_pairs_fmap|].
  intros doc. unfold joined_text. by rewrite concat_snoc_foldr.
Qed.

(** ** Calling twice *)

Section Twice.
Context {F : Type} `{!Runtime F}.
Implicit Types (self : TransformersSimilarityRanker F) (h : heap F)
  (documents out : list loc) (ps : list (loc * F)).

Lemma write_scores_snoc ps (p : loc * F) h :
  write_scores (ps ++ [p]) h = alter (set_score p.2) p.1 (write_scores ps h).
Proof. unfold write_scores. by rewrite foldl_app. Qed.

Lemma last_assigned_snoc ps (p : loc * F) (l : loc) :
  last_assigned (ps ++ [p]) l =
  if decide (p.1 = l) then Some p.2 else last_assigned ps l.
Proof. unfold last_assigned. by rewrite foldl_app. Qed.

Lemma lookup_write_scores ps h (l : loc) :
  write_scores ps h !! l =
  match last_assigned ps l with
  | Some s => set_score s <$> h !! l
  | None => h !! l
  end.
Proof.
  induction ps as [|p ps IH] using rev_ind; [done|].
  rewrite write_scores_snoc, last_assigned_snoc.
  case_decide as Hp.
  - subst l. rewrite lookup_alter_eq, IH.
    destruct (last_assigned ps p.1); [|done].
    by rewrite <- option_fmap_compose.
  - by rewrite lookup_alter_ne.
Qed.

Lemma write_scores_twice ps h : write_scores ps (write_scores ps h) = write_scores ps h.
Proof.
  apply map_eq. intros l. rewrite !lookup_write_scores.
  destruct (last_assigned ps l) as [s|]; [|done].
  by rewrite <- option_fmap_compose.
Qed.

Lemma write_scores_text self ps h (l : loc) :
  text_to_embed self (write_scores ps h !!! l) = text_to_embed self (h !!! l).
Proof.
  rewrite !lookup_total_alt, lookup_write_scores.
  destruct (last_assigned ps l) as [s|]; [|done].
  by destruct (h !! l).
Qed.

Lemma query_doc_pairs_write_scores self ps h (query : string) documents :
  query_doc_pairs self (write_scores ps h) query documents =
  query_doc_pairs self h query documents.
Proof.
  unfold query_doc_pairs.
  induction documents as [|l documents IH] using rev_ind; [done|].
  by rewrite !foldl_app, IH; cbn; rewrite write_scores_text.
Qed.

Lemma rank_step_cases documents (scores : list F) (st : heap F * list loc)
    (i : nat) :
  rank_step documents scores st i =
  match documents !! i, scores !! i with
  | Some d, Some s => Ok (alter (set_score s) d st.1, st.2 ++ [d])
  | _, _ => Raise IndexError
  end.
Proof.
  unfold rank_step, getitem.
  by destruct (documents !! i), (scores !! i).
Qed.

(** Whatever store the ranking loop starts from, it performs the same
    assignments and collects the same documents. *)
Lemma rank_loop_assignments documents (scores : list F) (idxs : list nat)
    h (acc : list loc) (st : heap F * list loc) :
  for_each (rank_step documents scores) idxs (h, acc) = Ok st →
  ∃ ps, ∀ h0 acc0,
    for_each (rank_step documents scores) idxs (h0, acc0) =
    Ok (write_scores ps h0, acc0 ++ ps.*1).
Proof.
  revert h acc. induction idxs as [|i idxs IH]; intros h acc Hloop.
  { exists []. intros h0 acc0. cbn. by rewrite app_nil_r. }
  rewrite for_each_cons, rank_step_cases in Hloop.
  destruct (documents !! i) as [l|] eqn:Hl; [|done].
  destruct (scores !! i) as [s|] eqn:Hs; [|done].
  cbn [mbind result_bind] in Hloop. apply IH in Hloop as [ps Hps].
  exists ((l, s) :: ps). intros h0 acc0.
  rewrite for_each_cons, rank_step_cases, Hl, Hs.
  cbn [mbind result_bind fst snd]. rewrite Hps. cbn. by rewrite <- app_assoc.
Qed.

(** C7: [run] is a function of its configuration and inputs, and a second
    call on the same documents, which now carry the scores of the first,
    returns the same list and leaves the store as the first call left it. *)
Theorem run_twice_same_output self h (query : string) documents
    (top_k : option Z) (scale_score : option bool)
    (calibration_factor score_threshold : option F) (h' : heap F) out :
  run self h query documents top_k scale_score calibration_factor
    score_threshold = Ok (h', out) →
  (∀ self2 h2 query2 documents2 top_k2 scale_score2 calibration_factor2
     score_threshold2,
     (self2, h2, query2, documents2) = (self, h, query, documents) →
     (top_k2, scale_score2, calibration_factor2, score_threshold2) =
     (top_k, scale_score, calibration_factor, score_threshold) →
     run self2 h2 query2 documents2 top_k2 scale_score2 calibration_factor2
       score_threshold2 = Ok (h', out)) ∧
  run self h' query documents top_k scale_score calibration_factor
    score_threshold = Ok (h', out).
Proof.
  intros Hrun. split.
  { intros self2 h2 query2 documents2 top_k2 scale_score2 calibration_factor2
      score_threshold2 [= -> -> -> ->] [= -> -> -> ->]. exact Hrun. }
  unfold run in Hrun |- *.
  case_bool_decide as Hdocs; [by injection Hrun as <- <-|].
  destruct (effective_top_k self top_k <=? 0); [done|].
  destruct (effective_scale_score self scale_score &&
            is_none (effective_calibration_factor self calibration_factor));
    [done|].
  destruct (model_truthy (self_model self) && is_none (_model self)); [done|].
  destruct (_model self) as [m|]; [|done]. cbn [mbind result_bind] in Hrun |- *.
  destruct (scale _ _ (logits m (query_doc_pairs self h query documents)))
    as [scores|] eqn:Hscores; [|done].
  cbn [mbind result_bind] in Hrun.
  destruct (for_each (rank_step documents scores) (torch_sort_descending scores)
              (h, [])) as [[h1 ranked]|] eqn:Hloop; [|done].
  destruct (rank_loop_assignments _ _ _ _ _ _ Hloop) as [ps Hps].
  rewrite Hps in Hloop. injection Hloop as <- <-.
  cbn [mbind result_bind] in Hrun.
  assert (h' = write_scores ps h) as ->.
  { destruct (effective_score_threshold self score_threshold);
      [destruct (comprehension_if _ _); [|done]|]; by injection Hrun as <- <-. }
  rewrite query_doc_pairs_write_scores, Hscores. cbn [mbind result_bind].
  rewrite Hps, write_scores_twice. exact Hrun.
Qed.
End Twice.

Lemma run_twice_same_output_witness :
  ∃ h',
    @run Z Test.runtime Test.ranker Test.store Test.query Test.docs
      None None None None = Ok (h', [2%positive; 1%positive]) ∧
    @run Z Test.runtime Test.ranker h' Test.query Test.docs
      None None None None = Ok (h', [2%positive; 1%positive]).
Proof.
  eexists. split; [vm_compute; reflexivity|].
  eapply (@run_twice_same_output Z Test.runtime Test.ranker Test.store).
  vm_compute. reflexivity.
Defined.


(** ** Per-call overrides *)

Section Overrides.
Context {F : Type} `{!Runtime F}.
Implicit Types (self : TransformersSimilarityRanker F) (h : heap F)
  (documents out : list loc) (m : CrossEncoder F).

Lemma init_invariant (model : model_id) (device : ComponentDevice)
    (token : hf_token) (top_k : Z) (query_prefix document_prefix : string)
    (meta_fields_to_embed : option (list string)) (embedding_separator : string)
    (scale_score : bool) (calibration_factor score_threshold : option F)
    (model_kwargs : option (gmap string kwarg_value)) self :
  init model device token top_k query_prefix document_prefix
    meta_fields_to_embed embedding_separator scale_score calibration_factor
    score_threshold model_kwargs = Ok self →
  0 < self_top_k self ∧
  (self_scale_score self → is_Some (self_calibration_factor self)).
Proof.
  unfold init. destruct (Z.leb_spec top_k 0) as [|Hk]; [done|].
  destruct (scale_score && is_none calibration_factor) eqn:Hcf; [done|].
  destruct (has_multiple_devices device); [done|].
  intros [= <-]. cbn. split; [done|].
  destruct scale_score, calibration_factor; by eauto.
Qed.

(** A component built by [__init__] and warmed up accepts every call
    without overrides on live documents, provided the sort does its part. *)
Lemma accepted_after_init (model : model_id) (device : ComponentDevice)
    (token : hf_token) (top_k : Z) (query_prefix document_prefix : string)
    (meta_fields_to_embed : option (list string)) (embedding_separator : string)
    (scale_score : bool) (calibration_factor score_threshold : option F)
    (model_kwargs : option (gmap string kwarg_value)) self
    (from_pretrained : model_id → hf_token → gmap string kwarg_value → CrossEncoder F)
    h (query : string) documents :
  let m := from_pretrained (self_model self) (self_token self)
             (self_model_kwargs self) in
  let xs := similarity_score (warm_up from_pretrained self) m h query None None
              <$> documents in
  init model device token top_k query_prefix document_prefix
    meta_fields_to_embed embedding_separator scale_score calibration_factor
    score_threshold model_kwargs = Ok self →
  Forall (λ l, is_Some (h !! l)) documents →
  sorts_descending xs (torch_sort_descending xs) →
  accepted (warm_up from_pretrained self) m h query documents None None None.
Proof.
  intros m xs Hinit Hlive Hsort.
  destruct (init_invariant _ _ _ _ _ _ _ _ _ _ _ _ _ Hinit) as [Hk Hcf].
  assert (_model self = None) as Hcold.
  { unfold init in Hinit. repeat case_match; try done. by injection Hinit as <-. }
  subst xs. unfold accepted, warm_up in *. rewrite Hcold in *. cbn in *. done.
Qed.

Lemma run_not_top_k_error self h (query : string) documents (top_k : option Z)
    (scale_score : option bool) (calibration_factor score_threshold : option F)
    (got : Z) :
  0 < effective_top_k self top_k →
  run self h query documents top_k scale_score calibration_factor
    score_threshold ≠ Raise (ValueError (top_k_must_be_positive got)).
Proof.
  intros Hk. unfold run. case_bool_decide; [done|].
  destruct (Z.leb_spec (effective_top_k self top_k) 0) as [|_]; [lia|].
  destruct (_ && _); [done|]. destruct (_ && _); [done|].
  destruct (_model self); [|done]. cbn [mbind result_bind].
  destruct (scale _ _ _) as [scores|e] eqn:Hscale; cbn [mbind result_bind].
  - destruct (for_each _ _ _) as [[h1 ranked]|e] eqn:Hloop.
    + cbn [mbind result_bind].
      destruct (effective_score_threshold self score_threshold) as [t|]; [|done].
      destruct (comprehension_if _ _) as [kept|e] eqn:Hkept; [done|].
      cbn. intros [= ->]. apply comprehension_if_raises in Hkept as [l Hl].
      unfold score_ge in Hl. by destruct (score (h1 !!! l)).
    + cbn. intros [= ->]. apply for_each_raises in Hloop as (st & i & Hstep).
      rewrite rank_step_cases in Hstep.
      by destruct (documents !! i), (scores !! i).
  - intros [= ->]. unfold scale in Hscale.
    destruct (effective_scale_score self scale_score); [|done].
    by destruct (effective_calibration_factor self calibration_factor).
Qed.

(** C8: the per-call overrides fall back on falsy values.  A call with
    [top_k=0] is the call without [top_k]: it uses the configured value,
    and on a component whose configured [top_k] is positive, as [__init__]
    demands, it raises no [ValueError] about [top_k].  On a component
    configured with [scale_score=True], a call with [scale_score=False] is
    the call without [scale_score], and the scores it assigns are
    sigmoid-scaled. *)
Theorem run_falsy_overrides_fall_back self m h (query : string) documents
    (top_k : option Z) (scale_score : option bool)
    (calibration_factor score_threshold : option F) :
  (effective_top_k self (Some 0) = self_top_k self ∧
   run self h query documents (Some 0) scale_score calibration_factor
     score_threshold =
   run self h query documents None scale_score calibration_factor
     score_threshold ∧
   (0 < self_top_k self →
    ∀ got, run self h query documents (Some 0) scale_score calibration_factor
             score_threshold ≠ Raise (ValueError (top_k_must_be_positive got)))) ∧
  (self_scale_score self = true →
   effective_scale_score self (Some false) = true ∧
   run self h query documents top_k (Some false) calibration_factor
     score_threshold =
   run self h query documents top_k None calibration_factor score_threshold ∧
   (documents ≠ [] →
    accepted self m h query documents top_k (Some false) calibration_factor →
    ∃ h' out c,
      run self h query documents top_k (Some false) calibration_factor
        score_threshold = Ok (h', out) ∧
      effective_calibration_factor self calibration_factor = Some c ∧
      Forall (λ l, score (h' !!! l) =
                   Some (torch_sigmoid (float_mul (raw_logit self m h query l) c)))
        out)).
Proof.
  split; [split; [done|split; [done|]]|].
  - intros Hk got. by apply run_not_top_k_error.
  - intros Hscale.
    assert (effective_scale_score self (Some false) = true) as Hon.
    { cbn. by rewrite Hscale. }
    split; [done|]. split; [done|].
    intros Hne Hacc. pose proof Hacc as (_ & _ & Hcf & _).
    rewrite Hon in Hcf. destruct Hcf as [c Hc]; [done|].
    destruct (run_returned_scores self m h query documents top_k (Some false)
                calibration_factor score_threshold Hne Hacc)
      as (h' & out & Hrun & Hscores).
    exists h', out, c. split; [done|]. split; [done|].
    eapply Forall_impl; [exact Hscores|].
    intros l ->. by rewrite (similarity_score_scaled _ _ _ _ _ _ c).
Qed.
End Overrides.

Lemma run_falsy_overrides_fall_back_witness :
  ∃ h',
    @run Z Test.runtime Test.ranker Test.store Test.query Test.docs
      (Some 0) (Some false) None None = Ok (h', [2%positive; 1%positive]) ∧
    (λ l : loc, score (h' !!! l)) <$> Test.docs = [Some 500; Some 750].
Proof.
  destruct (@run_falsy_overrides_fall_back Z Test.runtime Test.ranker
              Test.encoder Test.store Test.query Test.docs (Some 0) (Some false)
              None None) as [(_ & _ & Hquiet) Hscale].
  specialize (Hquiet ltac:(done)).
  destruct (Hscale eq_refl) as (_ & _ & Hscaled).
  destruct Hscaled as (h' & out & c & Hrun & _); [done|accept_call|].
  exists h'. vm_compute in Hrun. injection Hrun as <- <-. by vm_compute.
Defined.


(** ** What a call changes *)

Section Frame.
Context {F : Type} `{!Runtime F}.
Implicit Types (self : TransformersSimilarityRanker F) (h : heap F)
  (documents out : list loc) (m : CrossEncoder F).

(** C9: [run] mutates its input.  Every document object of the input list
    has its [score] attribute set to its similarity score, also those the
    call does not return, and nothing else of it changes; the returned list
    holds objects of the input list, not copies; no other object of the
    store is touched and none is created. *)
Theorem run_assigns_scores_in_place self m h (query : string) documents
    (top_k : option Z) (scale_score : option bool)
    (calibration_factor score_threshold : option F) :
  let f := similarity_score self m h query scale_score calibration_factor in
  documents ≠ [] →
  accepted self m h query documents top_k scale_score calibration_factor →
  ∃ h' out,
    run self h query documents top_k scale_score calibration_factor
      score_threshold = Ok (h', out) ∧
    out ⊆ documents ∧
    (∀ l, l ∈ documents →
          score (h' !!! l) = Some (f l) ∧
          id (h' !!! l) = id (h !!! l) ∧
          content (h' !!! l) = content (h !!! l) ∧
          meta (h' !!! l) = meta (h !!! l)) ∧
    (∀ l, l ∉ documents → h' !! l = h !! l) ∧
    dom h' = dom h.
Proof.
  intros f Hne Hacc. do 2 eexists. split; [by apply (run_accepted _ m)|].
  destruct Hacc as (_ & _ & _ & Hlive & Hperm & _).
  rewrite length_fmap in Hperm. apply at_positions_perm in Hperm.
  fold f in Hperm |- *.
  set (ranked := at_positions documents (torch_sort_descending (f <$> documents)))
    in *.
  split; [|split; [|split]].
  - etransitivity; [apply returned_subseteq_ranked|].
    intros l. apply at_positions_elem_of.
  - intros l Hl. rewrite Forall_forall in Hlive.
    destruct (Hlive l Hl) as [doc Hdoc].
    rewrite !lookup_total_alt, lookup_assign_scores, Hdoc.
    by rewrite decide_True by (by rewrite Hperm).
  - intros l Hl. rewrite lookup_assign_scores.
    by rewrite decide_False by (by rewrite Hperm).
  - apply set_eq. intros l. rewrite !elem_of_dom, lookup_assign_scores.
    case_decide; [|done]. by rewrite fmap_is_Some.
Qed.
End Frame.

Lemma run_assigns_scores_in_place_witness :
  ∃ h',
    @run Z Test.runtime Test.ranker Test.store Test.query Test.docs
      (Some 1) None None None = Ok (h', [2%positive]) ∧
    h' !! 1%positive = Some (set_score 500 (Test.document "Paris")) ∧
    h' !! 2%positive = Some (set_score 750 (Test.document "Berlin")).
Proof.
  destruct (@run_assigns_scores_in_place Z Test.runtime Test.ranker
              Test.encoder Test.store Test.query Test.docs (Some 1) None None None)
    as (h' & out & Hrun & _); [done|accept_call|].
  exists h'. vm_compute in Hrun. injection Hrun as <- <-. by vm_compute.
Defined.

(** ** Serialisation *)

(** C10: [to_dict] never serialises a string token.  The ["token"] entry of
    the serialised parameters is [None] when [self.token] is a string, and
    is the token itself when that is a boolean or [None]; so the dictionary
    of a component with a string token is the dictionary of the same
    component without a token. *)
Theorem to_dict_omits_string_token {F : Type}
    (self : TransformersSimilarityRanker F) :
  let recorded : ser_value F :=
    match self_token self with
    | TokenStr _ => SNone
    | TokenBool b => SBool b
    | TokenNone => SNone
    end in
  (∀ v, ("token", v) ∈ to_dict_kwargs self ↔ v = recorded) ∧
  init_parameters (to_dict self) !! "token" = Some recorded ∧
  (isinstance_str (self_token self) = false →
   recorded = token_value (self_token self)) ∧
  (isinstance_str (self_token self) = true →
   to_dict self = to_dict (set_token TokenNone self)).
Proof.
  intros recorded. split; [|split; [|split]].
  - intros v. unfold to_dict_kwargs. rewrite !elem_of_cons, elem_of_nil.
    split.
    + intros Hv. repeat (destruct Hv as [[=]|Hv]); [|done].
      subst v recorded. by destruct (self_token self).
    + intros ->. do 2 right. left. f_equal. subst recorded.
      by destruct (self_token self).
  - unfold to_dict. cbn [init_parameters default_to_dict].
    rewrite lookup_alter_ne by done. unfold to_dict_kwargs.
    cbn [list_to_map foldr fst snd].
    rewrite !(lookup_insert_ne _ _ "token") by done.
    rewrite lookup_insert_eq. subst recorded. by destruct (self_token self).
  - subst recorded. by destruct (self_token self).
  - intros Hstr. unfold to_dict.
    destruct self as [? ? [] ? ? ? ? ? ? ? ? ? ?]; done.
Qed.

(** A string token does not reach the dictionary. *)
Example to_dict_example :
  init_parameters (to_dict Test.meta_ranker) !! "token" = Some SNone ∧
  to_dict Test.meta_ranker = to_dict (set_token (TokenStr "other") Test.meta_ranker).
Proof. split; by vm_compute. Qed.


(** * Further properties of the component *)

(** ** When [run] raises *)

Section Outcomes.
Context {F : Type} `{!Runtime F}.
Implicit Types (self : TransformersSimilarityRanker F) (h : heap F)
  (documents out : list loc) (m : CrossEncoder F).

Lemma calibration_check (on : bool) (c : option F) :
  on && is_none c = false ↔ (on = true → is_Some c).
Proof.
  destruct on, c; cbn; split; try done; eauto.
  intros Hc. by destruct Hc as [? [=]].
Qed.

(** The stages after the checks raise [TypeError] or [IndexError] only. *)
Lemma run_raises_inv self h (query : string) documents (top_k : option Z)
    (scale_score : option bool) (calibration_factor score_threshold : option F)
    (e : exn) :
  let k := effective_top_k self top_k in
  let on := effective_scale_score self scale_score in
  let c := effective_calibration_factor self calibration_factor in
  run self h query documents top_k scale_score calibration_factor
    score_threshold = Raise e →
  documents ≠ [] ∧
  ((k ≤ 0 ∧ e = ValueError (top_k_must_be_positive k)) ∨
   (0 < k ∧ on = true ∧ c = None ∧
    e = ValueError calibration_factor_must_be_provided) ∨
   (0 < k ∧ (on = true → is_Some c) ∧
    model_truthy (self_model self) = true ∧ _model self = None ∧
    e = ComponentError) ∨
   (0 < k ∧ (on = true → is_Some c) ∧
    (model_truthy (self_model self) = true → is_Some (_model self)) ∧
    (e = TypeError ∨ e = IndexError))).
Proof.
  intros k on c. unfold run. fold k on c.
  case_bool_decide as Hdocs; [done|]. intros Hrun. split; [done|].
  destruct (Z.leb_spec k 0) as [Hk|Hk].
  { left. split; [done|]. by injection Hrun as <-. }
  right. destruct (on && is_none c) eqn:Hcal.
  { left. injection Hrun as <-. destruct on, c; naive_solver. }
  right. rewrite calibration_check in Hcal.
  destruct (model_truthy (self_model self) && is_none (_model self)) eqn:Hwarm.
  { left. injection Hrun as <-. apply andb_true_iff in Hwarm as [Hmodel Hnone].
    by destruct (_model self). }
  right. split; [done|]. split; [done|]. split.
  { intros Hmodel. rewrite Hmodel in Hwarm. by destruct (_model self). }
  destruct (_model self) as [m|]; [|left; by injection Hrun as <-].
  cbn [mbind result_bind] in Hrun.
  destruct (scale on c _) as [scores|e'] eqn:Hscale; cbn [mbind result_bind] in Hrun.
  2:{ injection Hrun as ->. left. unfold scale in Hscale.
      destruct on; [|done]. destruct c; [done|]. by injection Hscale as <-. }
  destruct (for_each _ _ _) as [[h1 ranked]|e'] eqn:Hloop;
    cbn [mbind result_bind] in Hrun.
  2:{ injection Hrun as ->. right.
      apply for_each_raises in Hloop as (st & i & Hstep).
      rewrite rank_step_cases in Hstep.
      destruct (documents !! i), (scores !! i); try done;
        by injection Hstep as <-. }
  destruct (effective_score_threshold self score_threshold) as [t|]; [|done].
  destruct (comprehension_if _ _) as [kept|e'] eqn:Hkept; [done|].
  cbn in Hrun. injection Hrun as ->. left.
  apply comprehension_if_raises in Hkept as [l Hl]. unfold score_ge in Hl.
  destruct (score (h1 !!! l)); [done|]. by injection Hl as <-.
Qed.

(** X1: [run] raises the [ValueError] about [top_k] exactly when the list
    of documents is not empty and the effective [top_k] is not positive;
    the message carries that effective value. *)
Theorem run_top_k_error_iff self h (query : string) documents (top_k : option Z)
    (scale_score : option bool) (calibration_factor score_threshold : option F)
    (got : Z) :
  run self h query documents top_k scale_score calibration_factor
    score_threshold = Raise (ValueError (top_k_must_be_positive got)) ↔
  documents ≠ [] ∧ effective_top_k self top_k ≤ 0 ∧
  got = effective_top_k self top_k.
Proof.
  split.
  - intros [Hne Hcases]%run_raises_inv. split; [done|].
    destruct Hcases as [[Hk [= ->]]|[(_ & _ & _ & [=])|[(_ & _ & _ & _ & [=])|
      (_ & _ & _ & [[=]|[=]])]]].
    done.
  - intros (Hne & Hk & ->). unfold run.
    rewrite bool_decide_eq_false_2 by done.
    by destruct (Z.leb_spec (effective_top_k self top_k) 0) as [_|?]; [|lia].
Qed.

(** X2: [run] raises the [ValueError] about the calibration factor exactly
    when the list is not empty, [top_k] is acceptable, scaling is in effect
    and neither the call nor the component provides a usable factor. *)
Theorem run_calibration_error_iff self h (query : string) documents
    (top_k : option Z) (scale_score : option bool)
    (calibration_factor score_threshold : option F) :
  run self h query documents top_k scale_score calibration_factor
    score_threshold = Raise (ValueError calibration_factor_must_be_provided) ↔
  documents ≠ [] ∧ 0 < effective_top_k self top_k ∧
  effective_scale_score self scale_score = true ∧
  effective_calibration_factor self calibration_factor = None.
Proof.
  split.
  - intros [Hne Hcases]%run_raises_inv. split; [done|].
    destruct Hcases as [[_ [=]]|[(Hk & Hon & Hc & _)|[(_ & _ & _ & _ & [=])|
      (_ & _ & _ & [[=]|[=]])]]].
    done.
  - intros (Hne & Hk & Hon & Hc). unfold run.
    rewrite bool_decide_eq_false_2 by done.
    destruct (Z.leb_spec (effective_top_k self top_k) 0) as [?|_]; [lia|].
    by rewrite Hon, Hc.
Qed.

(** X3: [run] raises [ComponentError] exactly when the list is not empty,
    the overrides pass both checks, the model name is truthy and the
    component was not warmed up. *)
Theorem run_component_error_iff self h (query : string) documents
    (top_k : option Z) (scale_score : option bool)
    (calibration_factor score_threshold : option F) :
  run self h query documents top_k scale_score calibration_factor
    score_threshold = Raise ComponentError ↔
  documents ≠ [] ∧ 0 < effective_top_k self top_k ∧
  (effective_scale_score self scale_score = true →
   is_Some (effective_calibration_factor self calibration_factor)) ∧
  model_truthy (self_model self) = true ∧ _model self = None.
Proof.
  split.
  - intros [Hne Hcases]%run_raises_inv. split; [done|].
    destruct Hcases as [[_ [=]]|[(_ & _ & _ & [=])|[(Hk & Hc & Hmodel & Hcold & _)|
      (_ & _ & _ & [[=]|[=]])]]].
    done.
  - intros (Hne & Hk & Hc & Hmodel & Hcold). unfold run.
    rewrite bool_decide_eq_false_2 by done.
    destruct (Z.leb_spec (effective_top_k self top_k) 0) as [?|_]; [lia|].
    rewrite <- calibration_check in Hc. by rewrite Hc, Hmodel, Hcold.
Qed.
End Outcomes.

(** ** What every returning call leaves behind *)

Section Returns.
Context {F : Type} `{!Runtime F}.
Implicit Types (self : TransformersSimilarityRanker F) (h : heap F)
  (documents out : list loc) (ps : list (loc * F)).

Lemma comprehension_if_sublist {A : Type} (c : A → result bool) (l kept : list A) :
  comprehension_if c l = Ok kept → kept `sublist_of` l.
Proof.
  revert kept. induction l as [|x l IH]; intros kept.
  { intros [= <-]. done. }
  cbn [comprehension_if]. destruct (c x) as [b|]; [|done].
  cbn [mbind result_bind]. destruct (comprehension_if c l) as [rest|]; [|done].
  cbn. intros [= <-]. destruct b.
  - by apply sublist_skip, IH.
  - by apply sublist_cons, IH.
Qed.

Lemma rank_loop_writes documents (scores : list F) (idxs : list nat) h
    (acc : list loc) (st : heap F * list loc) :
  for_each (rank_step documents scores) idxs (h, acc) = Ok st →
  ∃ ps, st = (write_scores ps h, acc ++ ps.*1) ∧
        Forall (λ p, p.1 ∈ documents) ps.
Proof.
  revert h acc. induction idxs as [|i idxs IH]; intros h acc Hloop.
  { exists []. injection Hloop as <-. by rewrite app_nil_r. }
  rewrite for_each_cons, rank_step_cases in Hloop.
  destruct (documents !! i) as [l|] eqn:Hl; [|done].
  destruct (scores !! i) as [s|] eqn:Hs; [|done].
  cbn [mbind result_bind] in Hloop. apply IH in Hloop as (ps & -> & Hps).
  exists ((l, s) :: ps). split.
  - cbn. by rewrite <- app_assoc.
  - constructor; [|done]. by eapply list_elem_of_lookup_2.
Qed.

Lemma last_assigned_fresh ps (l : loc) : l ∉ ps.*1 → last_assigned ps l = None.
Proof.
  induction ps as [|p ps IH] using rev_ind; [done|].
  rewrite fmap_app, not_elem_of_app. cbn. intros [Hps Hp].
  rewrite last_assigned_snoc, decide_False; [by apply IH|].
  intros <-. apply Hp, list_elem_of_here.
Qed.

Lemma run_returns_inv self h (query : string) documents (top_k : option Z)
    (scale_score : option bool) (calibration_factor score_threshold : option F)
    (h' : heap F) out :
  run self h query documents top_k scale_score calibration_factor
    score_threshold = Ok (h', out) →
  (documents = [] ∧ h' = h ∧ out = []) ∨
  (documents ≠ [] ∧ 0 < effective_top_k self top_k ∧
   ∃ ps kept, h' = write_scores ps h ∧ Forall (λ p, p.1 ∈ documents) ps ∧
              kept `sublist_of` ps.*1 ∧
              out = take (Z.to_nat (effective_top_k self top_k)) kept).
Proof.
  unfold run. case_bool_decide as Hdocs.
  { intros [= <- <-]. by left. }
  intros Hrun. right. split; [done|].
  destruct (Z.leb_spec (effective_top_k self top_k) 0) as [|Hk]; [done|].
  split; [done|].
  destruct (_ && _); [done|]. destruct (_ && _); [done|].
  destruct (_model self) as [m|]; [|done]. cbn [mbind result_bind] in Hrun.
  destruct (scale _ _ _) as [scores|]; [|done]. cbn [mbind result_bind] in Hrun.
  destruct (for_each _ _ _) as [[h1 ranked]|] eqn:Hloop; [|done].
  apply rank_loop_writes in Hloop as (ps & [= -> ->] & Hps).
  cbn [mbind result_bind app] in Hrun. exists ps.
  destruct (effective_score_threshold self score_threshold) as [t|].
  - destruct (comprehension_if _ _) as [kept|] eqn:Hkept; [|done].
    injection Hrun as <- <-. exists kept.
    by apply comprehension_if_sublist in Hkept.
  - injection Hrun as <- <-. by exists (ps.*1).
Qed.

(** X4: whatever [torch.sort] returns, a call that returns hands back
    objects of the input list, at most [top_k] of them, and has touched
    nothing but scores: no object is added to or removed from the store,
    an object that is not in the input list is unchanged, and every object
    keeps its identifier, content and meta data. *)
Theorem run_touches_only_scores self h (query : string) documents
    (top_k : option Z) (scale_score : option bool)
    (calibration_factor score_threshold : option F) (h' : heap F) out :
  run self h query documents top_k scale_score calibration_factor
    score_threshold = Ok (h', out) →
  out ⊆ documents ∧
  (documents ≠ [] → Z.of_nat (length out) ≤ effective_top_k self top_k) ∧
  dom h' = dom h ∧
  (∀ l, l ∉ documents → h' !! l = h !! l) ∧
  (∀ l, id (h' !!! l) = id (h !!! l) ∧
        content (h' !!! l) = content (h !!! l) ∧
        meta (h' !!! l) = meta (h !!! l)).
Proof.
  intros [(-> & -> & ->)|(Hne & Hk & ps & kept & -> & Hps & Hkept & ->)]%run_returns_inv.
  { done. }
  split; [|split; [|split; [|split]]].
  - intros l Hl.
    assert (l ∈ ps.*1) as (p & -> & Hp)%list_elem_of_fmap.
    { eapply elem_of_sublist; [done|]. by etransitivity; [apply sublist_take|]. }
    rewrite Forall_forall in Hps. by apply Hps.
  - intros _. rewrite length_take. lia.
  - apply set_eq. intros l. rewrite !elem_of_dom, lookup_write_scores.
    destruct (last_assigned ps l); [|done]. by rewrite fmap_is_Some.
  - intros l Hl. rewrite lookup_write_scores, last_assigned_fresh; [done|].
    intros (p & -> & Hp)%list_elem_of_fmap. rewrite Forall_forall in Hps.
    by apply Hl, Hps.
  - intros l. rewrite !lookup_total_alt, lookup_write_scores.
    destruct (last_assigned ps l); [|done]. by destruct (h !! l).
Qed.
End Returns.

Lemma run_touches_only_scores_witness :
  ∃ h',
    @run Z Test.runtime Test.ranker Test.tied_store Test.query Test.docs
      (Some 1) None None (Some 0) = Ok (h', [1%positive]) ∧
    h' !! 3%positive = Some (Test.document "Turin").
Proof.
  eexists. split; [vm_compute; reflexivity|].
  eapply (@run_touches_only_scores Z Test.runtime Test.ranker Test.tied_store
            Test.query Test.docs (Some 1) None None (Some 0)).
  - vm_compute. reflexivity.
  - by_evaluation.
Defined.

(** ** Construction, warm-up and the first call *)

Section Lifecycle.
Context {F : Type} `{!Runtime F}.
Implicit Types (self : TransformersSimilarityRanker F) (h : heap F)
  (documents out : list loc)
  (from_pretrained : model_id → hf_token → gmap string kwarg_value → CrossEncoder F).

Lemma init_fresh (model : model_id) (device : ComponentDevice)
    (token : hf_token) (top_k : Z) (query_prefix document_prefix : string)
    (meta_fields_to_embed : option (list string)) (embedding_separator : string)
    (scale_score : bool) (calibration_factor score_threshold : option F)
    (model_kwargs : option (gmap string kwarg_value)) self :
  init model device token top_k query_prefix document_prefix
    meta_fields_to_embed embedding_separator scale_score calibration_factor
    score_threshold model_kwargs = Ok self →
  self_model self = model ∧ _model self = None.
Proof.
  unfold init. repeat case_match; try done. by intros [= <-].
Qed.

(** X5: [__init__] accepts its arguments exactly when [top_k] is positive,
    a calibration factor comes with [scale_score=True], and the device is a
    single one; a non-positive [top_k] is reported before anything else. *)
Theorem init_accepts_iff (model : model_id) (device : ComponentDevice)
    (token : hf_token) (top_k : Z) (query_prefix document_prefix : string)
    (meta_fields_to_embed : option (list string)) (embedding_separator : string)
    (scale_score : bool) (calibration_factor score_threshold : option F)
    (model_kwargs : option (gmap string kwarg_value)) :
  let made := init model device token top_k query_prefix document_prefix
                meta_fields_to_embed embedding_separator scale_score
                calibration_factor score_threshold model_kwargs in
  ((∃ self, made = Ok self) ↔
   0 < top_k ∧ (scale_score = true → is_Some calibration_factor) ∧
   has_multiple_devices device = false) ∧
  (top_k ≤ 0 ↔ made = Raise (ValueError (top_k_must_be_positive top_k))).
Proof.
  intros made. subst made. unfold init.
  destruct (Z.leb_spec top_k 0) as [Hk|Hk].
  { split; [|done]. split; [by intros [? [=]]|lia]. }
  split; [|split; [lia|]].
  - destruct scale_score, calibration_factor, (has_multiple_devices device);
      cbn; split; try (by intros [? [=]]); try (by eauto);
      try (by intros (_ & [? [=]] & _)); try (by intros (_ & _ & [=])).
    all: intros (_ & Hc & _); by destruct Hc as [? [=]].
  - destruct (scale_score && is_none calibration_factor); [done|].
    by destruct (has_multiple_devices device).
Qed.

(** X6: a component straight out of [__init__] is not warmed up: its first
    call on a non-empty list, without overrides, raises [ComponentError]
    when the model name is truthy, and [TypeError] when it is the empty
    string; the documents are not ranked. *)
Theorem run_before_warm_up (model : model_id) (device : ComponentDevice)
    (token : hf_token) (top_k : Z) (query_prefix document_prefix : string)
    (meta_fields_to_embed : option (list string)) (embedding_separator : string)
    (scale_score : bool) (calibration_factor score_threshold : option F)
    (model_kwargs : option (gmap string kwarg_value)) self h (query : string)
    documents (threshold : option F) :
  init model device token top_k query_prefix document_prefix
    meta_fields_to_embed embedding_separator scale_score calibration_factor
    score_threshold model_kwargs = Ok self →
  documents ≠ [] →
  run self h query documents None None None threshold =
  Raise (if model_truthy model then ComponentError else TypeError).
Proof.
  intros Hinit Hne.
  destruct (init_invariant _ _ _ _ _ _ _ _ _ _ _ _ _ Hinit) as [Hk Hcf].
  destruct (init_fresh _ _ _ _ _ _ _ _ _ _ _ _ _ Hinit) as [Hmodel Hcold].
  unfold run. rewrite bool_decide_eq_false_2 by done. cbn.
  destruct (Z.leb_spec (self_top_k self) 0) as [?|_]; [lia|].
  assert (self_scale_score self && is_none (self_calibration_factor self) = false)
    as ->.
  { destruct (self_scale_score self); [|done]. by destruct Hcf as [? ->]. }
  rewrite Hcold, Hmodel. by destruct (model_truthy model).
Qed.

(** X7: [warm_up] loads the model once.  After it the component holds a
    model; a second [warm_up] changes nothing, whatever the loader would
    return; and the constructor parameters are as they were. *)
Theorem warm_up_loads_once self from_pretrained
    (other : model_id → hf_token → gmap string kwarg_value → CrossEncoder F) :
  is_Some (_model (warm_up from_pretrained self)) ∧
  warm_up other (warm_up from_pretrained self) = warm_up from_pretrained self ∧
  (is_Some (_model self) → warm_up from_pretrained self = self) ∧
  (_model self = None →
   _model (warm_up from_pretrained self) =
   Some (from_pretrained (self_model self) (self_token self)
           (self_model_kwargs self))) ∧
  to_dict (warm_up from_pretrained self) = to_dict self.
Proof.
  unfold warm_up. destruct (_model self) as [m|] eqn:Hm; cbn.
  - rewrite Hm. cbn. repeat split; eauto. done.
  - repeat split; eauto. by intros [? [=]].
Qed.

(** X8: a component built by [__init__] and warmed up ranks any non-empty
    list of live documents without raising, when called without overrides
    and the sort returns a descending order of the batch. *)
Theorem run_after_init_and_warm_up (model : model_id) (device : ComponentDevice)
    (token : hf_token) (top_k : Z) (query_prefix document_prefix : string)
    (meta_fields_to_embed : option (list string)) (embedding_separator : string)
    (scale_score : bool) (calibration_factor score_threshold : option F)
    (model_kwargs : option (gmap string kwarg_value)) self from_pretrained
    h (query : string) documents :
  let m := from_pretrained (self_model self) (self_token self)
             (self_model_kwargs self) in
  let xs := similarity_score (warm_up from_pretrained self) m h query None None
              <$> documents in
  init model device token top_k query_prefix document_prefix
    meta_fields_to_embed embedding_separator scale_score calibration_factor
    score_threshold model_kwargs = Ok self →
  documents ≠ [] →
  Forall (λ l, is_Some (h !! l)) documents →
  sorts_descending xs (torch_sort_descending xs) →
  ∃ h' out,
    run (warm_up from_pretrained self) h query documents None None None None =
    Ok (h', out) ∧
    (score_threshold = None → out ≠ []).
Proof.
  intros m xs Hinit Hne Hlive Hsort.
  pose proof (accepted_after_init _ _ _ _ _ _ _ _ _ _ _ _ _ from_pretrained
                h query documents Hinit Hlive Hsort) as Hacc.
  fold m in Hacc. do 2 eexists.
  split; [by apply (run_accepted _ m)|]. intros ->.
  assert (self_score_threshold (warm_up from_pretrained self) = None) as Hthr.
  { unfold init in Hinit. repeat case_match; try done.
    injection Hinit as <-. by cbn. }
  cbn [effective_score_threshold]. rewrite Hthr. cbn [meets].
  rewrite filter_all.
  destruct Hacc as (_ & Hk & _ & _ & Hperm & _). rewrite length_fmap in Hperm.
  apply at_positions_perm in Hperm.
  intros Hnil. apply (f_equal length) in Hnil.
  rewrite length_take, Hperm in Hnil. cbn [effective_top_k length] in Hk, Hnil.
  destruct documents; [done|]. cbn [length] in Hnil. lia.
Qed.
End Lifecycle.

Lemma run_before_warm_up_witness :
  ∃ self,
    init (ModelStr "cross-encoder/ms-marco-MiniLM-L-6-v2")
      {| device_repr := "cpu"; has_multiple_devices := false |} TokenNone 10
      "" "" None " " true (Some 1) None None = Ok self ∧
    @run Z Test.runtime self Test.store Test.query Test.docs None None None None =
    Raise ComponentError.
Proof.
  eexists. split; [reflexivity|].
  apply (@run_before_warm_up Z Test.runtime
           (ModelStr "cross-encoder/ms-marco-MiniLM-L-6-v2")
           {| device_repr := "cpu"; has_multiple_devices := false |}
           TokenNone 10 "" "" None " " true (Some 1) None None);
    [reflexivity|done].
Defined.

Lemma run_after_init_and_warm_up_witness :
  ∃ self h' out,
    init (ModelStr "cross-encoder/ms-marco-MiniLM-L-6-v2")
      {| device_repr := "cpu"; has_multiple_devices := false |} TokenNone 10
      "" "" None " " true (Some 1) None None = Ok self ∧
    @run Z Test.runtime (warm_up (λ _ _ _, Test.encoder) self) Test.store
      Test.query Test.docs None None None None = Ok (h', out).
Proof.
  eexists.
  destruct (@run_after_init_and_warm_up Z Test.runtime
              (ModelStr "cross-encoder/ms-marco-MiniLM-L-6-v2")
              {| device_repr := "cpu"; has_multiple_devices := false |}
              TokenNone 10 "" "" None " " true (Some 1) None None _
              (λ _ _ _, Test.encoder) Test.store Test.query Test.docs eq_refl)
    as (h' & out & Hrun & _); [done|by_evaluation|by_evaluation|].
  exists h', out. split; [reflexivity|exact Hrun].
Defined.

(** ** How the overrides compose *)

Lemma filter_prefix_sorted {A : Type} (R : relation A) (P : A → Prop)
    `{!∀ x, Decision (P x)} (l : list A) :
  (∀ x y, R x y → P y → P x) →
  StronglySorted R l → filter P l `prefix_of` l.
Proof.
  intros Hup. induction 1 as [|x l Hl IH Hx]; [done|].
  destruct (decide (P x)) as [HP|HP].
  - rewrite filter_cons_True by done. by apply prefix_cons.
  - rewrite filter_cons_False by done.
    assert (filter P l = []) as ->; [|apply prefix_nil].
    clear IH Hl. induction Hx as [|y l Hxy _ IH]; [done|].
    rewrite filter_cons_False; [done|]. intros HPy. by apply HP, (Hup x y).
Qed.

Lemma prefix_take_mono {A : Type} (l1 l2 : list A) (n : nat) :
  l1 `prefix_of` l2 → take n l1 `prefix_of` take n l2.
Proof. intros [k ->]. rewrite take_app. by apply prefix_app_r. Qed.

Section Compose.
Context {F : Type} `{!Runtime F}.
Implicit Types (self : TransformersSimilarityRanker F) (h : heap F)
  (documents out : list loc) (m : CrossEncoder F).

Lemma ranked_sorted (f : loc → F) documents :
  sorts_descending (f <$> documents) (torch_sort_descending (f <$> documents)) →
  StronglySorted (λ a b, float_ge (f a) (f b))
    (at_positions documents (torch_sort_descending (f <$> documents))).
Proof.
  intros Hsort. pose proof (sorts_descending_in_range _ _ Hsort) as Hin.
  rewrite length_fmap in Hin. destruct Hsort as [_ Hsorted].
  eapply StronglySorted_Forall2; [|by apply at_positions_in_range|done].
  intros i j a b Hi Hj. cbn beta. by rewrite (ge_at_scores _ _ _ _ a b).
Qed.

(** X9: [top_k] only cuts the ranking.  Of two accepted calls that differ in
    [top_k] alone, the one with the smaller effective [top_k] returns a
    prefix of what the other returns, and both leave the same scores in the
    store. *)
Theorem run_smaller_top_k_returns_prefix self m h (query : string) documents
    (top_k1 top_k2 : option Z) (scale_score : option bool)
    (calibration_factor score_threshold : option F) :
  documents ≠ [] →
  accepted self m h query documents top_k1 scale_score calibration_factor →
  effective_top_k self top_k1 ≤ effective_top_k self top_k2 →
  ∃ h' out1 out2,
    run self h query documents top_k1 scale_score calibration_factor
      score_threshold = Ok (h', out1) ∧
    run self h query documents top_k2 scale_score calibration_factor
      score_threshold = Ok (h', out2) ∧
    out1 `prefix_of` out2.
Proof.
  intros Hne Hacc Hle.
  assert (accepted self m h query documents top_k2 scale_score calibration_factor)
    as Hacc2.
  { destruct Hacc as (Hm & Hk & Hrest). split; [done|]. split; [lia|done]. }
  do 3 eexists. split; [by apply (run_accepted _ m)|].
  split; [by apply (run_accepted _ m)|].
  destruct Hacc as (_ & Hk & _).
  set (kept := filter _ _).
  replace (take (Z.to_nat (effective_top_k self top_k1)) kept)
    with (take (Z.to_nat (effective_top_k self top_k1))
            (take (Z.to_nat (effective_top_k self top_k2)) kept)).
  { apply prefix_take. }
  rewrite take_take. f_equal. lia.
Qed.

(** X10: on floats ordered transitively by [>=], the threshold only cuts a
    tail of the ranking.  Of two accepted calls that differ in the
    threshold alone, the one without a threshold, or with the lower one,
    returns a list that starts with what the stricter call returns, and
    both leave the same scores in the store. *)
Theorem run_stricter_threshold_returns_prefix self m h (query : string)
    documents (top_k : option Z) (scale_score : option bool)
    (calibration_factor strict lenient : option F) :
  (∀ x y z : F, float_ge x y → float_ge y z → float_ge x z) →
  documents ≠ [] →
  accepted self m h query documents top_k scale_score calibration_factor →
  match effective_score_threshold self lenient with
  | None => True
  | Some t2 => ∃ t1, effective_score_threshold self strict = Some t1 ∧
                     float_ge t1 t2
  end →
  ∃ h' out1 out2,
    run self h query documents top_k scale_score calibration_factor strict =
    Ok (h', out1) ∧
    run self h query documents top_k scale_score calibration_factor lenient =
    Ok (h', out2) ∧
    out1 `prefix_of` out2.
Proof.
  intros Htrans Hne Hacc Hthr.
  do 3 eexists. split; [by apply (run_accepted _ m)|].
  split; [by apply (run_accepted _ m)|].
  destruct Hacc as (_ & _ & _ & _ & Hsort). apply ranked_sorted in Hsort.
  set (f := similarity_score self m h query scale_score calibration_factor) in *.
  set (ranked := at_positions _ _) in *.
  set (thr1 := effective_score_threshold self strict) in *.
  set (thr2 := effective_score_threshold self lenient) in *.
  apply prefix_take_mono.
  assert (∀ l, meets thr1 (f l) → meets thr2 (f l)) as Himp.
  { intros l. destruct thr2 as [t2|]; [|done].
    destruct Hthr as (t1 & -> & Hge). cbn. intros Hl. by eapply Htrans. }
  rewrite <- (list_filter_filter_l (λ l, meets thr1 (f l)) (λ l, meets thr2 (f l))
                ranked) by done.
  apply (filter_prefix_sorted (λ a b, float_ge (f a) (f b))).
  - intros a b Hab. destruct thr1 as [t1|]; [|done]. cbn. by apply Htrans.
  - eapply StronglySorted_sublist; [apply sublist_filter|done].
Qed.

(** X11: the calibration factor is used only when scaling is in effect:
    with the effective [scale_score] false, a call does the same whatever
    [calibration_factor] it is given, also none. *)
Theorem run_ignores_calibration_without_scaling self h (query : string)
    documents (top_k : option Z) (scale_score : option bool)
    (calibration_factor1 calibration_factor2 score_threshold : option F) :
  effective_scale_score self scale_score = false →
  run self h query documents top_k scale_score calibration_factor1
    score_threshold =
  run self h query documents top_k scale_score calibration_factor2
    score_threshold.
Proof. intros Hoff. unfold run, scale. by rewrite Hoff. Qed.
End Compose.

Lemma filter_ext_elem_of {A : Type} (P Q : A → Prop) `{!∀ x, Decision (P x)}
    `{!∀ x, Decision (Q x)} (l : list A) :
  (∀ x, x ∈ l → P x ↔ Q x) → filter P l = filter Q l.
Proof.
  induction l as [|x l IH]; intros Hext; [done|].
  assert (filter P l = filter Q l) as Hl.
  { apply IH. intros y Hy. apply Hext, elem_of_cons. by right. }
  pose proof (Hext x (list_elem_of_here _ _)) as Hx.
  destruct (decide (P x)) as [HP|HP].
  - rewrite !filter_cons_True by tauto. by rewrite Hl.
  - rewrite !filter_cons_False by tauto. by rewrite Hl.
Qed.

Section Inputs.
Context {F : Type} `{!Runtime F}.
Implicit Types (self : TransformersSimilarityRanker F) (h : heap F)
  (documents out : list loc) (m : CrossEncoder F) (doc : Document F).

(** X12: a document none of whose configured meta fields is present with a
    truthy value is embedded as its content alone, with no separator; so is
    every document when no meta field is configured, and a document without
    content then embeds as the empty string. *)
Theorem text_to_embed_without_meta self doc :
  (∀ key, key ∈ self_meta_fields_to_embed self →
          present_and_truthy doc key = false) →
  text_to_embed self doc = default "" (content doc) ∧
  ∀ h (query : string) (l : loc),
    h !! l = Some doc →
    query_doc_pairs self h query [l] =
    [(self_query_prefix self +:+ query,
      self_document_prefix self +:+ default "" (content doc))].
Proof.
  intros Hnone.
  assert (text_to_embed self doc = default "" (content doc)) as Htext.
  { unfold text_to_embed. rewrite meta_values_filter.
    assert (filter (λ key, present_and_truthy doc key)
              (self_meta_fields_to_embed self) = []) as ->; [|done].
    induction (self_meta_fields_to_embed self) as [|key keys IH]; [done|].
    rewrite filter_cons_False.
    - apply IH. intros k Hk. apply Hnone, elem_of_cons. by right.
    - rewrite (Hnone key); [intros Hfalse; exact Hfalse|].
      apply list_elem_of_here. }
  split; [done|]. intros h query l Hl. unfold query_doc_pairs.
  cbn [foldl app]. by rewrite lookup_total_alt, Hl, <- Htext.
Qed.

(** X13: the ranking reads the content and meta data of the documents and
    nothing else of the store.  From two stores in which the listed
    documents have the same content and meta data, whatever their scores
    and identifiers, an accepted call returns the same list and assigns the
    same scores. *)
Theorem run_reads_content_and_meta_only self m h1 h2 (query : string) documents
    (top_k : option Z) (scale_score : option bool)
    (calibration_factor score_threshold : option F) :
  documents ≠ [] →
  accepted self m h1 query documents top_k scale_score calibration_factor →
  Forall (λ l, is_Some (h2 !! l)) documents →
  (∀ l, l ∈ documents →
        content (h2 !!! l) = content (h1 !!! l) ∧
        meta (h2 !!! l) = meta (h1 !!! l)) →
  ∃ h1' h2' out,
    run self h1 query documents top_k scale_score calibration_factor
      score_threshold = Ok (h1', out) ∧
    run self h2 query documents top_k scale_score calibration_factor
      score_threshold = Ok (h2', out) ∧
    ∀ l, l ∈ documents → score (h2' !!! l) = score (h1' !!! l).
Proof.
  intros Hne Hacc Hlive2 Hsame.
  set (f1 := similarity_score self m h1 query scale_score calibration_factor).
  set (f2 := similarity_score self m h2 query scale_score calibration_factor).
  assert (∀ l, l ∈ documents → f2 l = f1 l) as Hf.
  { intros l Hl. destruct (Hsame l Hl) as [Hc Hm].
    unfold f1, f2, similarity_score, raw_logit, text_to_embed,
      meta_values_to_embed. by rewrite Hc, Hm. }
  assert (f2 <$> documents = f1 <$> documents) as Hxs.
  { apply list_fmap_ext. intros i l Hl. apply Hf.
    by eapply list_elem_of_lookup_2. }
  assert (accepted self m h2 query documents top_k scale_score calibration_factor)
    as Hacc2.
  { destruct Hacc as (Hm & Hk & Hc & _ & Hsort). fold f1 in Hsort.
    unfold accepted. cbv zeta. fold f2. rewrite Hxs. done. }
  do 3 eexists. split; [by apply (run_accepted _ m)|].
  split.
  { rewrite (run_accepted _ m) by done. fold f1 f2. rewrite Hxs.
    do 3 f_equal. apply filter_ext_elem_of. intros l Hl.
    rewrite Hf; [done|]. by eapply at_positions_elem_of. }
  fold f1. intros l Hl.
  destruct Hacc as (_ & _ & _ & Hlive1 & Hperm & _). fold f1 in Hperm.
  rewrite length_fmap in Hperm. apply at_positions_perm in Hperm.
  rewrite Forall_forall in Hlive1, Hlive2.
  destruct (Hlive1 l Hl) as [d1 Hd1], (Hlive2 l Hl) as [d2 Hd2].
  rewrite !lookup_total_alt, !lookup_assign_scores, Hd1, Hd2.
  rewrite !decide_True by (by rewrite Hperm). cbn. by rewrite Hf.
Qed.
End Inputs.

(** ** Serialising a constructed component *)


Lemma run_smaller_top_k_returns_prefix_witness :
  ∃ h' out1 out2,
    @run Z Test.runtime Test.ranker Test.store Test.query Test.docs
      (Some 1) None None None = Ok (h', out1) ∧
    @run Z Test.runtime Test.ranker Test.store Test.query Test.docs
      None None None None = Ok (h', out2) ∧
    out1 `prefix_of` out2.
Proof.
  apply (@run_smaller_top_k_returns_prefix Z Test.runtime Test.ranker
           Test.encoder Test.store Test.query Test.docs (Some 1) None None None
           None); [done|accept_call|by vm_compute].
Defined.

Lemma run_stricter_threshold_returns_prefix_witness :
  ∃ h' out1 out2,
    @run Z Test.runtime Test.ranker Test.store Test.query Test.docs
      None None None (Some 600) = Ok (h', out1) ∧
    @run Z Test.runtime Test.ranker Test.store Test.query Test.docs
      None None None None = Ok (h', out2) ∧
    out1 `prefix_of` out2.
Proof.
  apply (@run_stricter_threshold_returns_prefix Z Test.runtime Test.ranker
           Test.encoder Test.store Test.query Test.docs None None None
           (Some 600) None); [|done|accept_call|done].
  intros x y z Hxy Hyz. cbn in *.
  apply Is_true_true in Hxy, Hyz. apply Is_true_true.
  rewrite Z.geb_le in *. lia.
Defined.

Lemma run_ignores_calibration_without_scaling_witness :
  ∃ self,
    init (ModelStr "cross-encoder/ms-marco-MiniLM-L-6-v2")
      {| device_repr := "cpu"; has_multiple_devices := false |} TokenNone 10
      "" "" None " " false None None None = Ok self ∧
    @run Z Test.runtime (warm_up (λ _ _ _, Test.encoder) self) Test.store
      Test.query Test.docs None None (Some 3) None =
    @run Z Test.runtime (warm_up (λ _ _ _, Test.encoder) self) Test.store
      Test.query Test.docs None None None None.
Proof.
  eexists. split; [reflexivity|].
  apply (@run_ignores_calibration_without_scaling Z Test.runtime).
  reflexivity.
Defined.

Lemma text_to_embed_without_meta_witness :
  @text_to_embed Z Test.meta_ranker (Test.document "Paris") = "Paris".
Proof.
  apply (@text_to_embed_without_meta Z Test.meta_ranker
           (Test.document "Paris")).
  intros key _. unfold present_and_truthy. cbn. by rewrite lookup_empty.
Defined.

Lemma run_reads_content_and_meta_only_witness :
  ∃ h1' h2' out,
    @run Z Test.runtime Test.ranker Test.store Test.query Test.docs
      None None None None = Ok (h1', out) ∧
    @run Z Test.runtime Test.ranker (set_score 7 <$> Test.store) Test.query
      Test.docs None None None None = Ok (h2', out).
Proof.
  destruct (@run_reads_content_and_meta_only Z Test.runtime Test.ranker
              Test.encoder Test.store (set_score 7 <$> Test.store) Test.query
              Test.docs None None None None)
    as (h1' & h2' & out & Hrun1 & Hrun2 & _);
    [done|accept_call|by_evaluation| |by exists h1', h2', out].
  intros l Hl. rewrite !lookup_total_alt, lookup_fmap.
  by destruct (Test.store !! l).
Defined.


(** ** The best document *)

Section Best.
Context {F : Type} `{!Runtime F}.
Implicit Types (self : TransformersSimilarityRanker F) (h : heap F)
  (documents out : list loc) (m : CrossEncoder F).

(** X15: with no threshold in effect, an accepted call on a non-empty list
    returns at least one document, and the first one returned scores at
    least as high as every other document of the input, returned or not. *)
Theorem run_first_is_best self m h (query : string) documents
    (top_k : option Z) (scale_score : option bool)
    (calibration_factor score_threshold : option F) :
  let f := similarity_score self m h query scale_score calibration_factor in
  documents ≠ [] →
  accepted self m h query documents top_k scale_score calibration_factor →
  effective_score_threshold self score_threshold = None →
  ∃ h' best rest,
    run self h query documents top_k scale_score calibration_factor
      score_threshold = Ok (h', best :: rest) ∧
    best ∈ documents ∧
    ∀ l, l ∈ documents → l ≠ best → float_ge (f best) (f l).
Proof.
  intros f Hne Hacc Hthr.
  pose proof Hacc as (_ & Hk & _ & _ & Hsort). fold f in Hsort.
  pose proof (ranked_sorted f documents Hsort) as Hsorted.
  destruct Hsort as [Hperm _]. rewrite length_fmap in Hperm.
  apply at_positions_perm in Hperm.
  rewrite (run_accepted _ m) by done. fold f. rewrite Hthr. cbn [meets].
  rewrite filter_all.
  destruct (at_positions documents (torch_sort_descending (f <$> documents)))
    as [|best ranked] eqn:Hranked.
  { apply Permutation_nil_l in Hperm. by subst documents. }
  destruct (Z.to_nat (effective_top_k self top_k)) as [|n] eqn:Hn; [lia|].
  cbn [take]. do 3 eexists. split; [done|]. split.
  { rewrite <- Hperm. apply list_elem_of_here. }
  intros l Hl Hother. rewrite <- Hperm in Hl.
  apply elem_of_cons in Hl as [->|Hl]; [done|].
  apply StronglySorted_cons in Hsorted as [Hbest _].
  rewrite Forall_forall in Hbest. by apply Hbest.
Qed.
End Best.

Lemma run_first_is_best_witness :
  ∃ h' rest,
    @run Z Test.runtime Test.ranker Test.store Test.query Test.docs
      None None None None = Ok (h', 2%positive :: rest).
Proof.
  destruct (@run_first_is_best Z Test.runtime Test.ranker Test.encoder
              Test.store Test.query Test.docs None None None None)
    as (h' & best & rest & Hrun & _); [done|accept_call|done|].
  exists h', rest. rewrite Hrun. vm_compute in Hrun.
  by injection Hrun as _ <- _.
Defined.
